(** * Golden Core: from hand landmarks to application state and smoothed
      render parameters

    A shallow embedding of the gesture pipeline of the repository:

    - [processResults] of [src/components/HandTracker.tsx] (feature
      extraction, gesture classification with hysteresis, edge-triggered
      transition requests, the shared [handDataRef]);
    - [TreeProvider] of [src/context/TreeContext.tsx] ([activeState],
      [transitionTo]);
    - the two [useFrame] callbacks of the MagicTree component (camera rig
      and blend uniform);
    - [generateTreeData] of the math utilities.

    Numbers.  A JavaScript [number] is modelled by a real for every finite
    value (rounding is not modelled); the one operation of the pipeline
    that leaves the finite values, the unguarded division that yields the
    compactness, returns a [JS.number], which adds the two infinities and
    NaN with the comparison rules of IEEE 754. *)

From Stdlib Require Import Reals Lra Lia List.
From stdpp Require Import base list strings.
Import ListNotations.

Open Scope R_scope.

(** ** JavaScript numbers at the division *)

Module JS.

Inductive number : Type :=
| Fin (r : R)
| PInf
| NInf
| NaN.

Definition isFinite (n : number) : bool :=
  match n with Fin _ => true | _ => false end.

(** [a / b] for finite [a] and a finite divisor [b] that is never the
    negative zero (in the pipeline [b] is a [Math.sqrt]). *)
Definition div (a b : R) : number :=
  if Req_dec_T b 0 then
    if Rlt_dec 0 a then PInf
    else if Rlt_dec a 0 then NInf
    else NaN
  else Fin (a / b).

(** [n < t] and [n > t] against a finite literal [t]; every comparison
    with NaN is false. *)
Definition lt (n : number) (t : R) : bool :=
  match n with
  | Fin r => if Rlt_dec r t then true else false
  | NInf => true
  | PInf | NaN => false
  end.

Definition gt (n : number) (t : R) : bool :=
  match n with
  | Fin r => if Rlt_dec t r then true else false
  | PInf => true
  | NInf | NaN => false
  end.

End JS.

(** ** Data model (TreeContext.tsx) *)

Inductive TreeState : Type := FORMED | CHAOS | FOCUS.

Inductive Gesture : Type := OPEN | CLOSED | NONE.

Definition TreeState_eqb (a b : TreeState) : bool :=
  match a, b with
  | FORMED, FORMED | CHAOS, CHAOS | FOCUS, FOCUS => true
  | _, _ => false
  end.

Definition Gesture_eqb (a b : Gesture) : bool :=
  match a, b with
  | OPEN, OPEN | CLOSED, CLOSED | NONE, NONE => true
  | _, _ => false
  end.

Module HandData.
Record t : Type := mk {
  x : R;
  y : R;
  z : R;
  gesture : Gesture;
  isPresent : bool
}.
End HandData.

(** The part of the React state the pipeline reads and writes: the shared
    ref of the provider, the tracker's own ref and label state, and the
    provider's [activeState]. *)
Record World : Type := mkWorld {
  handDataRef : HandData.t;
  lastGestureRef : Gesture;
  currentGesture : Gesture;
  activeState : TreeState
}.

(** [useRef<HandData>({x: 0, y: 0, z: 0, gesture: 'NONE', isPresent: false})],
    [useRef('NONE')], [useState('NONE')], [useState('FORMED')]. *)
Definition initialWorld : World :=
  mkWorld (HandData.mk 0 0 0 NONE false) NONE NONE FORMED.

(** [transitionTo = useCallback(state => setActiveState(state))]. *)
Definition transitionTo (state : TreeState) (w : World) : World :=
  mkWorld (handDataRef w) (lastGestureRef w) (currentGesture w) state.

(** ** Landmarks and feature extraction (HandTracker.tsx) *)

Module Landmark.
Record t : Type := mk { x : R; y : R; z : R }.
End Landmark.

(** One hand of the detector: its landmarks by index (the detector yields
    21 of them; the code reads 0, 8, 9, 12, 16 and 20). *)
Definition Hand : Type := nat -> Landmark.t.

(** [results.landmarks]: possibly missing, else one entry per hand. *)
Record Results : Type := mkResults { landmarks : option (list Hand) }.

Definition palmSize (lm : Hand) : R :=
  let dx := Landmark.x (lm 0%nat) - Landmark.x (lm 9%nat) in
  let dy := Landmark.y (lm 0%nat) - Landmark.y (lm 9%nat) in
  let dz := Landmark.z (lm 0%nat) - Landmark.z (lm 9%nat) in
  sqrt (dx * dx + dy * dy + dz * dz).

Definition zoomFactor (palm : R) : R :=
  Rmin (Rmax ((palm - 0.05) * 4.0) 0) 1.

Definition tips : list nat := [8%nat; 12%nat; 16%nat; 20%nat].

Definition tipDistance (lm : Hand) (tipIdx : nat) : R :=
  let tip := lm tipIdx in
  let wrist := lm 0%nat in
  sqrt ((Landmark.x tip - Landmark.x wrist) ^ 2
        + (Landmark.y tip - Landmark.y wrist) ^ 2
        + (Landmark.z tip - Landmark.z wrist) ^ 2).

(** [tips.forEach(tipIdx => { ...; totalDist += d })] from [totalDist = 0]. *)
Definition totalDist (lm : Hand) : R :=
  fold_left (fun acc tipIdx => acc + tipDistance lm tipIdx) tips 0.

Definition avgDist (lm : Hand) : R := totalDist lm / 4.

Definition compactness (lm : Hand) : JS.number :=
  JS.div (avgDist lm) (palmSize lm).

(** ** Gesture classification with hysteresis *)

Definition classify (c : JS.number) (last : Gesture) : Gesture :=
  if JS.lt c 1.4 then CLOSED
  else if JS.gt c 1.6 then OPEN
  else last.

(** ** One detection tick: [processResults]

    The result is the new world together with the calls of [transitionTo]
    made during the tick, in order. *)

Definition presentHand (results : Results) : option Hand :=
  match landmarks results with
  | Some (lm :: _) => Some lm
  | Some [] | None => None
  end.

Definition processResults (results : Results) (w : World)
  : World * list TreeState :=
  match presentHand results with
  | Some lm =>
      let wrist := lm 0%nat in
      let rawX := Landmark.x wrist in
      let rawY := Landmark.y wrist in
      let hd1 :=
        HandData.mk (- (rawX - 0.5) * 2) (- (rawY - 0.5) * 2)
                    (zoomFactor (palmSize lm))
                    (HandData.gesture (handDataRef w)) true in
      let newGesture := classify (compactness lm) (lastGestureRef w) in
      let hd2 :=
        HandData.mk (HandData.x hd1) (HandData.y hd1) (HandData.z hd1)
                    newGesture (HandData.isPresent hd1) in
      if Gesture_eqb newGesture (lastGestureRef w) then
        (mkWorld hd2 (lastGestureRef w) (currentGesture w) (activeState w), [])
      else
        let w1 := mkWorld hd2 newGesture newGesture (activeState w) in
        let '(w2, t2) :=
          match newGesture with
          | CLOSED => (transitionTo FORMED w1, [FORMED])
          | _ => (w1, [])
          end in
        let '(w3, t3) :=
          match newGesture with
          | OPEN => (transitionTo CHAOS w2, [CHAOS])
          | _ => (w2, [])
          end in
        (w3, t2 ++ t3)
  | None =>
      let hd := handDataRef w in
      (mkWorld (HandData.mk (HandData.x hd) (HandData.y hd) (HandData.z hd)
                            (HandData.gesture hd) false)
               (lastGestureRef w) (currentGesture w) (activeState w), [])
  end.

(** What reaches the world during a session: a detection tick, or a call
    of [transitionTo] from outside the tracker (manual override; the two
    buttons of the overlay call it with FORMED and with CHAOS). *)
Inductive Event : Type :=
| Tick (results : Results)
| Manual (state : TreeState).

Definition step (w : World) (e : Event) : World :=
  match e with
  | Tick results => fst (processResults results w)
  | Manual state => transitionTo state w
  end.

Definition run (es : list Event) (w : World) : World := fold_left step es w.

(** The gestures stored by successive classifications of a sequence of
    compactness readings. *)
Fixpoint classifyAll (cs : list JS.number) (last : Gesture) : list Gesture :=
  match cs with
  | [] => []
  | c :: cs' => let g := classify c last in g :: classifyAll cs' g
  end.

(** ** Render loop (MagicTree component) *)

(** [THREE.MathUtils.lerp(x, y, t)] of three.js: [(1 - t) * x + t * y],
    with no clamp on [t]. *)
Definition lerp (x y t : R) : R := (1 - t) * x + t * y.

Module Vec3.
Record t : Type := mk { x : R; y : R; z : R }.
End Vec3.

(** *** CameraRig *)

Definition isChaos (activeState : TreeState) : bool :=
  TreeState_eqb activeState CHAOS.

Definition rangeX (isChaos : bool) : R := if isChaos then 50 else 30.
Definition rangeY (isChaos : bool) : R := if isChaos then 25 else 15.
Definition offsetY (isChaos : bool) : R := if isChaos then 2 else 5.
Definition maxDist (isChaos : bool) : R := if isChaos then 40 else 35.
Definition minDist : R := 12.

(** [targetX], [targetY], [targetZ] of the hand-driven branch. *)
Definition cameraTarget (hd : HandData.t) (activeState : TreeState) : Vec3.t :=
  let chaos := isChaos activeState in
  Vec3.mk (HandData.x hd * rangeX chaos)
          (HandData.y hd * rangeY chaos + offsetY chaos)
          (lerp (maxDist chaos) minDist (HandData.z hd)).

(** [idleX], [2], [idleZ] of the idle branch. *)
Definition idleTarget (elapsedTime : R) : Vec3.t :=
  let time := elapsedTime * 0.15 in
  Vec3.mk (sin time * 4) 2 (25 + cos time * 2).

(** The [useFrame] callback of [CameraRig]: the new [camera.position]. *)
Definition cameraRigFrame (hd : HandData.t) (activeState : TreeState)
    (elapsedTime delta : R) (position : Vec3.t) : Vec3.t :=
  let damp := 2.0 * delta in
  if HandData.isPresent hd then
    let target := cameraTarget hd activeState in
    Vec3.mk (lerp (Vec3.x position) (Vec3.x target) damp)
            (lerp (Vec3.y position) (Vec3.y target) damp)
            (lerp (Vec3.z position) (Vec3.z target) damp)
  else
    let target := idleTarget elapsedTime in
    Vec3.mk (lerp (Vec3.x position) (Vec3.x target) (damp * 0.5))
            (lerp (Vec3.y position) (Vec3.y target) (damp * 0.5))
            (lerp (Vec3.z position) (Vec3.z target) (damp * 0.5)).

(** *** MagicTree *)

Record Material : Type := mkMaterial {
  uTime : R;
  uPixelRatio : R;
  uState : R
}.

Definition targetStateValue (activeState : TreeState) : R :=
  if TreeState_eqb activeState CHAOS then 1.0 else 0.0.

(** The update of [uState] in one render tick. *)
Definition blendStep (activeState : TreeState) (delta uState : R) : R :=
  let smoothing := 2.0 * delta in
  lerp uState (targetStateValue activeState) smoothing.

(** The [useFrame] callback of [MagicTree]; nothing happens while the
    material ref is empty. *)
Definition magicTreeFrame (activeStateRef : TreeState)
    (elapsedTime devicePixelRatio delta : R) (materialRef : option Material)
  : option Material :=
  match materialRef with
  | Some m =>
      Some (mkMaterial elapsedTime (Rmin devicePixelRatio 2)
                       (blendStep activeStateRef delta (uState m)))
  | None => None
  end.

(** ** Particle geometry ([generateTreeData])

    A [Float32Array] is a list of reals of fixed length, zero-filled at
    allocation; a write [a[i] = v] is [<[i:=v]> a] (both ignore an index
    out of range).  [random k] is the result of the [k]-th call of
    [Math.random()] since the generator was entered. *)

Record TreeData : Type := mkTreeData {
  positionsTree : list R;
  positionsSphere : list R;
  randoms : list R
}.

Record GenState : Type := mkGenState {
  data : TreeData;
  drawn : nat
}.

Section GenerateTreeData.

Variable random : nat -> R.

Definition loopBody (count : nat) (treeHeight treeRadius : R)
    (st : GenState) (i : nat) : GenState :=
  let k := drawn st in
  let i3 := (i * 3)%nat in
  (* Randoms *)
  let randoms1 := <[i := random k]> (randoms (data st)) in
  (* Sphere *)
  let theta := random (k + 1)%nat * PI * 2 in
  let v := random (k + 2)%nat in
  let phi := acos (2 * v - 1) in
  let rSphere := 8 + random (k + 3)%nat * 2 in
  let sx := rSphere * sin phi * cos theta in
  let sy := rSphere * sin phi * sin theta in
  let sz := rSphere * cos phi in
  let sphere1 :=
    <[(i3 + 2)%nat := sz]>
      (<[(i3 + 1)%nat := sy]> (<[i3 := sx]> (positionsSphere (data st)))) in
  (* Tree *)
  let yPct := INR i / INR count in
  let y := (yPct - 0.5) * treeHeight in
  let strandCount := 12%nat in
  let strandId := INR (i mod strandCount) in
  let radiusPct := 1.0 - yPct in
  let baseRadius := radiusPct * treeRadius in
  let majorTurns := 3.0 in
  let majorAngle := yPct * PI * 2 * majorTurns in
  let strandOffset := (strandId / INR strandCount) * PI * 2 in
  let curlFreq := 8.0 + (yPct * 4.0) in
  let curlPhase := strandId * 135.5 in
  let rWiggleAmp := 0.8 * radiusPct in
  let angleWiggleAmp := 0.4 * radiusPct in
  let rWiggle := sin (yPct * PI * 2 * curlFreq + curlPhase) * rWiggleAmp in
  let angleWiggle :=
    cos (yPct * PI * 2 * curlFreq + curlPhase) * angleWiggleAmp in
  let rFinal := baseRadius + rWiggle in
  let thetaFinal := majorAngle + strandOffset + angleWiggle in
  let tx := rFinal * cos thetaFinal in
  let tz := rFinal * sin thetaFinal in
  let scatter := 0.1 in
  let jitterX := (random (k + 4)%nat - 0.5) * scatter in
  let jitterY := (random (k + 5)%nat - 0.5) * scatter in
  let jitterZ := (random (k + 6)%nat - 0.5) * scatter in
  let tree1 :=
    <[(i3 + 2)%nat := tz + jitterZ]>
      (<[(i3 + 1)%nat := y + jitterY]>
         (<[i3 := tx + jitterX]> (positionsTree (data st)))) in
  mkGenState (mkTreeData tree1 sphere1 randoms1) (k + 7)%nat.

Definition allocate (count : nat) : GenState :=
  mkGenState (mkTreeData (replicate (count * 3) 0)
                         (replicate (count * 3) 0)
                         (replicate count 0))
             0%nat.

(** [for (let i = 0; i < count; i++) { ... }] *)
Definition loop (count : nat) (treeHeight treeRadius : R) (n : nat)
  : GenState :=
  fold_left (loopBody count treeHeight treeRadius) (seq 0 n)
            (allocate count).

Definition generateTreeData (count : nat) (treeHeight treeRadius : R)
  : TreeData :=
  data (loop count treeHeight treeRadius count).

End GenerateTreeData.

(** The call with the default [treeHeight = 15] and [treeRadius = 6]. *)
Definition generateTreeData1 (random : nat -> R) (count : nat) : TreeData :=
  generateTreeData random count 15 6.

(** The point stored at particle [i] of a position array. *)
Definition pointAt (a : list R) (i : nat) : option Vec3.t :=
  match a !! (i * 3)%nat, a !! (i * 3 + 1)%nat, a !! (i * 3 + 2)%nat with
  | Some px, Some py, Some pz => Some (Vec3.mk px py pz)
  | _, _, _ => None
  end.

Definition norm (p : Vec3.t) : R :=
  sqrt (Vec3.x p * Vec3.x p + Vec3.y p * Vec3.y p + Vec3.z p * Vec3.z p).

(** ** Auxiliary notions used by the statements *)

(** The closed interval [[lo, hi]] of finite values. *)
Definition inBand (c : JS.number) (lo hi : R) : Prop :=
  match c with
  | JS.Fin r => lo <= r <= hi
  | _ => False
  end.

(** A family of test hands.

    Wrist at the origin, middle-finger MCP at distance [palm] on the first
    axis, the four fingertips at distance [reach] on the same axis. *)

Definition handOf (palm reach : R) : Hand :=
  fun i =>
    match i with
    | 0%nat => Landmark.mk 0 0 0
    | 9%nat => Landmark.mk palm 0 0
    | _ => Landmark.mk reach 0 0
    end.

Definition frameOf (palm reach : R) : Results :=
  mkResults (Some [handOf palm reach]).

Definition noHand : Results := mkResults (Some []).

(** The gesture field of the shared ref after each event of a session. *)
Fixpoint gestureTrace (es : list Event) (w : World) : list Gesture :=
  match es with
  | [] => []
  | e :: es' =>
      let w' := step w e in
      HandData.gesture (handDataRef w') :: gestureTrace es' w'
  end.

(** The tracker's private [lastGestureRef] and the gesture exposed in the
    shared ref agree (true initially and kept by every event). *)
Definition refsAgree (w : World) : Prop :=
  HandData.gesture (handDataRef w) = lastGestureRef w.

(** A frame with a hand, whatever else the detector reports after it. *)
Definition frameWith (lm : Hand) (rest : list Hand) : Results :=
  mkResults (Some (lm :: rest)).

(** The blend uniform after [n] render ticks with a constant application
    state and a fixed [delta]. *)
Fixpoint blendAfter (n : nat) (activeState : TreeState) (delta uState : R) : R :=
  match n with
  | O => uState
  | S n' => blendStep activeState delta (blendAfter n' activeState delta uState)
  end.

(** The update of the blend parameter as the specification words it:
    [value += (target - value) * min(1, smoothingRate * deltaTime)] with a
    smoothing rate of 2.0 per second. *)
Definition specBlendStep (activeState : TreeState) (deltaTime value : R) : R :=
  value + (targetStateValue activeState - value) * Rmin 1 (2.0 * deltaTime).

(** The sphere point the generator computes for particle [i], from the
    draws 1, 2 and 3 of the seven draws of its iteration. *)
Definition spherePoint (random : nat -> R) (i : nat) : Vec3.t :=
  let theta := random (i * 7 + 1)%nat * PI * 2 in
  let phi := acos (2 * random (i * 7 + 2)%nat - 1) in
  let rSphere := 8 + random (i * 7 + 3)%nat * 2 in
  Vec3.mk (rSphere * sin phi * cos theta)
          (rSphere * sin phi * sin theta)
          (rSphere * cos phi).

(** ** The detection loop ([predictWebcam] of HandTracker.tsx) *)

Record Video : Type := mkVideo {
  videoWidth : nat;
  paused : bool
}.

(** What [detectForVideo] does on one call: it returns results or throws. *)
Inductive Detection : Type :=
| Detected (results : Results)
| Thrown.

(** The landmarker held by [handLandmarkerRef], by its [detectForVideo]:
    from the video element and [startTimeMs] to the outcome of the call. *)
Definition HandLandmarker : Type := Video -> R -> Detection.

(** One call of [predictWebcam]: the new world, and whether the next call
    was scheduled with [requestAnimationFrame].  [now] is the value of
    [performance.now()]. *)
Definition predictWebcam (isMounted : bool)
    (handLandmarkerRef : option HandLandmarker) (videoRef : option Video)
    (now : R) (w : World) : World * bool :=
  if negb isMounted then (w, false)
  else
    match handLandmarkerRef, videoRef with
    | Some landmarker, Some video =>
        let startTimeMs := now in
        let w' :=
          if Nat.ltb 0 (videoWidth video) && negb (paused video) then
            match landmarker video startTimeMs with
            | Detected results => fst (processResults results w)
            | Thrown => w
            end
          else w in
        (w', true)
    | _, _ => (w, false)
    end.

(** ** Labels ([HandTracker] status label, [UIOverlay] prompt) *)

Inductive Status : Type := LOADING | READY | ERROR.

Definition Status_eqb (a b : Status) : bool :=
  match a, b with
  | LOADING, LOADING | READY, READY | ERROR, ERROR => true
  | _, _ => false
  end.

(** The text of the status label: the fragments of the JSX in order, a
    fragment whose condition is false rendering nothing. *)
Definition statusLabel (status : Status) (currentGesture : Gesture) : string :=
  let isError := Status_eqb status ERROR in
  let isReady := Status_eqb status READY in
  let isLoading := Status_eqb status LOADING in
  ((if isError then "OFFLINE" else "")
   +:+ (if isReady && Gesture_eqb currentGesture CLOSED then "IGNITING" else "")
   +:+ (if isReady && Gesture_eqb currentGesture OPEN then "DISSOLVING" else "")
   +:+ (if isReady && Gesture_eqb currentGesture NONE then "SCANNING" else "")
   +:+ (if isLoading then "BOOTING..." else ""))%string.

Module PromptPhase.
Record t : Type := mk {
  title : string;
  subtitle : string;
  step : nat
}.
End PromptPhase.

Definition initialPromptPhase : PromptPhase.t :=
  PromptPhase.mk "SYSTEM INITIALIZING" "WAITING FOR CAMERA..." 0.

(** One run of the polling callback of [UIOverlay] (every 200 ms): the new
    [promptPhase], which is the old one when no branch sets it. *)
Definition pollPrompt (hand : HandData.t) (activeState : TreeState)
    (promptPhase : PromptPhase.t) : PromptPhase.t :=
  if negb (HandData.isPresent hand) then
    PromptPhase.mk "PHASE I: LINK" "RAISE YOUR HAND TO CONNECT" 1
  else
    match activeState with
    | FORMED =>
        if Gesture_eqb (HandData.gesture hand) OPEN then
          PromptPhase.mk "PHASE II: ENTROPY" "DISSOLVING STRUCTURE..." 2
        else
          PromptPhase.mk "PHASE II: ENTROPY" "OPEN HAND TO DISSOLVE" 2
    | CHAOS =>
        if Gesture_eqb (HandData.gesture hand) CLOSED then
          PromptPhase.mk "PHASE III: ORDER" "REFORMING CORE..." 3
        else
          PromptPhase.mk "PHASE III: ORDER" "CLOSE FIST TO IGNITE" 3
    | FOCUS => promptPhase
    end.

(** ** The star ([Star] of the MagicTree component) *)

(** [groupRef.current.position.y] set by the [useFrame] callback at
    elapsed time [t]. *)
Definition starY (t : R) : R := 8.0 + sin (t * 1.5) * 0.2.

(** ** The tree shaders (treeMaterial.ts), over the reals *)

Module TreeShader.

Definition cubicBezier (t : R) : R := t * t * (3.0 - 2.0 * t).

(** GLSL [mix(x, y, a)] is [x * (1 - a) + y * a], componentwise on vectors. *)
Definition mix (x y a : R) : R := x * (1 - a) + y * a.

Definition mix3 (p q : Vec3.t) (a : R) : Vec3.t :=
  Vec3.mk (mix (Vec3.x p) (Vec3.x q) a)
          (mix (Vec3.y p) (Vec3.y q) a)
          (mix (Vec3.z p) (Vec3.z q) a).

(** [transformed] of the vertex shader.  [mat2(a, b, c, d)] has the
    columns [(a, b)] and [(c, d)], so [rotateXZ * v] is
    [(cos * v.x + sin * v.y, - sin * v.x + cos * v.y)]. *)
Definition transformed (uTime uState : R)
    (aPositionTree aPositionSphere : Vec3.t) : Vec3.t :=
  let t := cubicBezier uState in
  let pos := mix3 aPositionTree aPositionSphere t in
  let angle := uTime * 0.1 in
  Vec3.mk (cos angle * Vec3.x pos + sin angle * Vec3.z pos)
          (Vec3.y pos)
          (- sin angle * Vec3.x pos + cos angle * Vec3.z pos).

(** The fragment shader: [None] when the fragment is discarded, else the
    colour and alpha of [gl_FragColor].  [pow(strength, 2.0)] is the square,
    its base being non-negative once the discard has passed. *)
Definition fragment (pointCoord : R * R) (uColor : Vec3.t) (uTime vRandom : R)
  : option (Vec3.t * R) :=
  let dist :=
    sqrt ((fst pointCoord - 0.5) * (fst pointCoord - 0.5)
          + (snd pointCoord - 0.5) * (snd pointCoord - 0.5)) in
  if Rlt_dec 0.5 dist then None
  else
    let strength := 1.0 - (dist * 2.0) in
    let strength := strength * strength in
    let twinkle := 0.5 + 0.5 * sin (uTime * 6.0 + vRandom * 100.0) in
    let finalColor :=
      Vec3.mk (Vec3.x uColor * strength * twinkle)
              (Vec3.y uColor * strength * twinkle)
              (Vec3.z uColor * strength * twinkle) in
    Some (Vec3.mk (Vec3.x finalColor * 2.0) (Vec3.y finalColor * 2.0)
                  (Vec3.z finalColor * 2.0), 1.0).

End TreeShader.

(** ** Further notions used by the statements *)

(** The tree point the generator computes for particle [i], from the draws
    4, 5 and 6 of the seven draws of its iteration. *)
Definition treePoint (random : nat -> R) (count : nat)
    (treeHeight treeRadius : R) (i : nat) : Vec3.t :=
  let yPct := INR i / INR count in
  let strandId := INR (i mod 12) in
  let radiusPct := 1.0 - yPct in
  let curl := yPct * PI * 2 * (8.0 + (yPct * 4.0)) + strandId * 135.5 in
  let rFinal := radiusPct * treeRadius + sin curl * (0.8 * radiusPct) in
  let thetaFinal :=
    yPct * PI * 2 * 3.0 + (strandId / INR 12) * PI * 2
    + cos curl * (0.4 * radiusPct) in
  Vec3.mk (rFinal * cos thetaFinal + (random (i * 7 + 4)%nat - 0.5) * 0.1)
          ((yPct - 0.5) * treeHeight + (random (i * 7 + 5)%nat - 0.5) * 0.1)
          (rFinal * sin thetaFinal + (random (i * 7 + 6)%nat - 0.5) * 0.1).

(** The hand scaled by [k] about the origin, and moved by [d]. *)
Definition scaleHand (k : R) (lm : Hand) : Hand :=
  fun i => Landmark.mk (k * Landmark.x (lm i)) (k * Landmark.y (lm i))
                       (k * Landmark.z (lm i)).

Definition moveHand (d : Landmark.t) (lm : Hand) : Hand :=
  fun i => Landmark.mk (Landmark.x (lm i) + Landmark.x d)
                       (Landmark.y (lm i) + Landmark.y d)
                       (Landmark.z (lm i) + Landmark.z d).

(** The calls of [transitionTo] made by the detection ticks of a session,
    in order (manual overrides are not gesture requests). *)
Fixpoint tickRequests (es : list Event) (w : World) : list TreeState :=
  match es with
  | [] => []
  | Tick results :: es' =>
      snd (processResults results w) ++ tickRequests es' (step w (Tick results))
  | Manual state :: es' => tickRequests es' (step w (Manual state))
  end.

(** No two neighbours of the list are equal. *)
Fixpoint alternates (l : list TreeState) : Prop :=
  match l with
  | a :: (b :: _) as rest => a <> b /\ alternates rest
  | _ => True
  end.

(** A tick that cannot change the gesture: no hand, or a compactness that
    is neither below 1.4 nor above 1.6. *)
Definition holdingFrame (results : Results) : Prop :=
  match presentHand results with
  | Some lm => JS.lt (compactness lm) 1.4 = false /\ JS.gt (compactness lm) 1.6 = false
  | None => True
  end.

(** An event of the running application: a detection tick, or a click on
    one of the two buttons of the overlay. *)
Definition uiEvent (e : Event) : Prop :=
  match e with
  | Tick _ => True
  | Manual state => state = FORMED \/ state = CHAOS
  end.

Definition isTick (e : Event) : Prop :=
  match e with Tick _ => True | Manual _ => False end.

(** The application state that a stored gesture asks for. *)
Definition stateOfGesture (g : Gesture) : TreeState :=
  match g with
  | OPEN => CHAOS
  | CLOSED | NONE => FORMED
  end.

(** A session of render ticks of [MagicTree], each with its application
    state, elapsed time, device pixel ratio and frame time. *)
Definition renderFrames
    (frames : list (TreeState * R * R * R)) (materialRef : option Material)
  : option Material :=
  fold_left
    (fun m '(activeStateRef, elapsedTime, devicePixelRatio, delta) =>
       magicTreeFrame activeStateRef elapsedTime devicePixelRatio delta m)
    frames materialRef.

(** The transition a tick requests when the classification changes to [g]. *)
Definition requestOf (g : Gesture) : option TreeState :=
  match g with
  | CLOSED => Some FORMED
  | OPEN => Some CHAOS
  | NONE => None
  end.

(** What every event of a session keeps true of the world. *)
Definition sessionInvariant (w : World) : Prop :=
  0 <= HandData.z (handDataRef w) <= 1 /\
  HandData.gesture (handDataRef w) = lastGestureRef w /\
  currentGesture w = lastGestureRef w.

(** A session of render ticks of [CameraRig], each with the hand data and
    application state it reads, the elapsed time and the frame time. *)
Definition cameraFrames
    (frames : list (HandData.t * TreeState * R * R)) (position : Vec3.t)
  : Vec3.t :=
  fold_left
    (fun p '(hd, activeState, elapsedTime, delta) =>
       cameraRigFrame hd activeState elapsedTime delta p)
    frames position.

(** [camera={{ position: [0, 2, 25] }}] of the canvas. *)
Definition initialCamera : Vec3.t := Vec3.mk 0 2 25.

(** A render tick whose frame time is at most half a second and whose
    hand data has its depth in [[0, 1]]. *)
Definition steadyFrame (f : HandData.t * TreeState * R * R) : Prop :=
  let '(hd, _, _, delta) := f in
  0 <= delta <= 0.5 /\ 0 <= HandData.z hd <= 1.

(** * Properties *)

(** ** Comparisons and division of [JS.number] *)

Lemma JS_lt_Fin (r t : R) : JS.lt (JS.Fin r) t = true <-> r < t.
Proof.
  unfold JS.lt. destruct (Rlt_dec r t); split; intros; try easy.
Qed.

Lemma JS_gt_Fin (r t : R) : JS.gt (JS.Fin r) t = true <-> t < r.
Proof.
  unfold JS.gt. destruct (Rlt_dec t r); split; intros; try easy.
Qed.

Lemma JS_lt_gt_excl (c : JS.number) (a b : R) :
  a <= b -> JS.lt c a = true -> JS.gt c b = false.
Proof.
  intros Hab. destruct c as [r | | |]; simpl; try easy.
  destruct (Rlt_dec r a), (Rlt_dec b r); try easy. lra.
Qed.

Lemma JS_div_pos (a b : R) : b <> 0 -> JS.div a b = JS.Fin (a / b).
Proof.
  intros Hb. unfold JS.div. destruct (Req_dec_T b 0); [contradiction | reflexivity].
Qed.

Lemma JS_div_zero (a : R) : JS.isFinite (JS.div a 0) = false.
Proof.
  unfold JS.div. destruct (Req_dec_T 0 0) as [_ | H]; [| now destruct H].
  destruct (Rlt_dec 0 a); [reflexivity |].
  destruct (Rlt_dec a 0); reflexivity.
Qed.

(** The condition of the last branch of the classifier is the dead band,
    or NaN. *)
Lemma dead_branch_iff (c : JS.number) :
  JS.lt c 1.4 = false /\ JS.gt c 1.6 = false <-> inBand c 1.4 1.6 \/ c = JS.NaN.
Proof.
  destruct c as [r | | |]; simpl.
  - destruct (Rlt_dec r 1.4), (Rlt_dec 1.6 r); split;
      try (intros [H1 H2]; discriminate);
      try (intros [H | H]; [lra | discriminate]).
    intros _. left. lra.
  - split; [intros [_ H]; discriminate | intros [[] | H]; discriminate].
  - split; [intros [H _]; discriminate | intros [[] | H]; discriminate].
  - split; [now right | easy].
Qed.

Lemma palmSize_handOf (palm reach : R) :
  0 <= palm -> palmSize (handOf palm reach) = palm.
Proof.
  intros Hp. unfold palmSize, handOf; simpl.
  replace ((0 - palm) * (0 - palm) + (0 - 0) * (0 - 0) + (0 - 0) * (0 - 0))
    with (palm * palm) by ring.
  now apply sqrt_square.
Qed.

Lemma avgDist_handOf (palm reach : R) :
  0 <= reach -> avgDist (handOf palm reach) = reach.
Proof.
  intros Hr. unfold avgDist, totalDist, tips, tipDistance, handOf; simpl.
  replace ((reach - 0) * ((reach - 0) * 1) + (0 - 0) * ((0 - 0) * 1)
           + (0 - 0) * ((0 - 0) * 1)) with (reach * reach) by ring.
  rewrite sqrt_square by assumption. field.
Qed.

Lemma compactness_handOf (reach : R) :
  0 <= reach -> compactness (handOf 1 reach) = JS.Fin reach.
Proof.
  intros Hr. unfold compactness.
  rewrite palmSize_handOf by lra. rewrite avgDist_handOf by assumption.
  rewrite JS_div_pos by lra. f_equal. field.
Qed.

(** All landmarks at one point: both distances vanish and the quotient
    is NaN. *)
Lemma compactness_handOf_0_0 : compactness (handOf 0 0) = JS.NaN.
Proof.
  unfold compactness.
  rewrite palmSize_handOf by lra. rewrite avgDist_handOf by lra.
  unfold JS.div. destruct (Req_dec_T 0 0) as [_ | H]; [| now destruct H].
  destruct (Rlt_dec 0 0); [lra | reflexivity].
Qed.

(** ** The detection tick, field by field *)

Lemma Gesture_eqb_eq (a b : Gesture) : Gesture_eqb a b = true <-> a = b.
Proof. destruct a, b; simpl; split; intros; try easy. Qed.

Lemma Gesture_eqb_neq (a b : Gesture) : Gesture_eqb a b = false <-> a <> b.
Proof. destruct a, b; simpl; split; intros; try easy; now destruct H. Qed.

Lemma processResults_present (lm : Hand) (rest : list Hand) (w : World) :
  let g := classify (compactness lm) (lastGestureRef w) in
  let w' := fst (processResults (mkResults (Some (lm :: rest))) w) in
  HandData.gesture (handDataRef w') = g /\
  lastGestureRef w' = g /\
  HandData.isPresent (handDataRef w') = true /\
  HandData.x (handDataRef w') = - (Landmark.x (lm 0%nat) - 0.5) * 2 /\
  HandData.y (handDataRef w') = - (Landmark.y (lm 0%nat) - 0.5) * 2 /\
  HandData.z (handDataRef w') = zoomFactor (palmSize lm).
Proof.
  unfold processResults; simpl.
  destruct (Gesture_eqb _ _) eqn:E.
  - apply Gesture_eqb_eq in E. simpl. now rewrite E.
  - destruct (classify (compactness lm) (lastGestureRef w)); simpl; easy.
Qed.

Lemma processResults_requests (lm : Hand) (rest : list Hand) (w : World) :
  let g := classify (compactness lm) (lastGestureRef w) in
  snd (processResults (mkResults (Some (lm :: rest))) w) =
    if Gesture_eqb g (lastGestureRef w) then []
    else match g with
         | CLOSED => [FORMED]
         | OPEN => [CHAOS]
         | NONE => []
         end.
Proof.
  unfold processResults; simpl.
  destruct (Gesture_eqb _ _) eqn:E; [reflexivity |].
  destruct (classify (compactness lm) (lastGestureRef w)); reflexivity.
Qed.

Lemma processResults_absent (results : Results) (w : World) :
  presentHand results = None ->
  processResults results w =
    (mkWorld (HandData.mk (HandData.x (handDataRef w))
                          (HandData.y (handDataRef w))
                          (HandData.z (handDataRef w))
                          (HandData.gesture (handDataRef w)) false)
             (lastGestureRef w) (currentGesture w) (activeState w), []).
Proof. intros H. unfold processResults. now rewrite H. Qed.

(** ** Gesture classifier *)

Lemma classify_lt (c : JS.number) (prev : Gesture) :
  JS.lt c 1.4 = true -> classify c prev = CLOSED.
Proof. unfold classify. now intros ->. Qed.

Lemma classify_gt (c : JS.number) (prev : Gesture) :
  JS.gt c 1.6 = true -> classify c prev = OPEN.
Proof.
  unfold classify. intros H.
  destruct (JS.lt c 1.4) eqn:E; [| now rewrite H].
  apply (JS_lt_gt_excl c 1.4 1.6) in E; [congruence | lra].
Qed.

Lemma classify_hold (c : JS.number) (prev : Gesture) :
  JS.lt c 1.4 = false -> JS.gt c 1.6 = false -> classify c prev = prev.
Proof. unfold classify. now intros -> ->. Qed.

Lemma step_tick_gesture (lm : Hand) (rest : list Hand) (w : World) :
  let w' := step w (Tick (mkResults (Some (lm :: rest)))) in
  HandData.gesture (handDataRef w') = classify (compactness lm) (lastGestureRef w) /\
  lastGestureRef w' = classify (compactness lm) (lastGestureRef w).
Proof.
  simpl. pose proof (processResults_present lm rest w) as H. simpl in H.
  split; apply H.
Qed.

(** C1.  For every compactness value [c] and previous gesture [prev] the
    classifier is the three-way split of the claim: it returns CLOSED when
    [c < 1.4], OPEN when [c > 1.6], and otherwise [prev] unchanged (the dead
    band, and a NaN reading, for which both comparisons are false).  So its
    result is CLOSED exactly when [c < 1.4] or the holding branch returns a
    previous CLOSED, and OPEN exactly when [c > 1.6] or the holding branch
    returns a previous OPEN.  A detection tick with a hand stores this
    result, computed from the compactness of the hand and the last stored
    gesture.  The readings 1.0, 1.5, 1.5, 1.8 from NONE give CLOSED, CLOSED,
    CLOSED, OPEN, both for the classifier alone and for four ticks of the
    tracker from the initial world. *)
Theorem classify_hysteresis :
  (forall (c : JS.number) (prev : Gesture),
      (JS.lt c 1.4 = true -> classify c prev = CLOSED) /\
      (JS.gt c 1.6 = true -> classify c prev = OPEN) /\
      (JS.lt c 1.4 = false -> JS.gt c 1.6 = false -> classify c prev = prev) /\
      (classify c prev = CLOSED <->
         JS.lt c 1.4 = true \/
         (JS.lt c 1.4 = false /\ JS.gt c 1.6 = false /\ prev = CLOSED)) /\
      (classify c prev = OPEN <->
         JS.gt c 1.6 = true \/
         (JS.lt c 1.4 = false /\ JS.gt c 1.6 = false /\ prev = OPEN))) /\
  (forall (r : R) (prev : Gesture),
      (r < 1.4 -> classify (JS.Fin r) prev = CLOSED) /\
      (1.6 < r -> classify (JS.Fin r) prev = OPEN) /\
      (1.4 <= r <= 1.6 -> classify (JS.Fin r) prev = prev)) /\
  (forall (lm : Hand) (rest : list Hand) (w : World),
      HandData.gesture
        (handDataRef (fst (processResults (mkResults (Some (lm :: rest))) w)))
      = classify (compactness lm) (lastGestureRef w)) /\
  classifyAll [JS.Fin 1.0; JS.Fin 1.5; JS.Fin 1.5; JS.Fin 1.8] NONE
    = [CLOSED; CLOSED; CLOSED; OPEN] /\
  gestureTrace [Tick (frameOf 1 1.0); Tick (frameOf 1 1.5);
                Tick (frameOf 1 1.5); Tick (frameOf 1 1.8)] initialWorld
    = [CLOSED; CLOSED; CLOSED; OPEN].
Proof.
  assert (Hfin : forall (r : R) (prev : Gesture),
      (r < 1.4 -> classify (JS.Fin r) prev = CLOSED) /\
      (1.6 < r -> classify (JS.Fin r) prev = OPEN) /\
      (1.4 <= r <= 1.6 -> classify (JS.Fin r) prev = prev)).
  { intros r prev. repeat split; intros H.
    - apply classify_lt. now apply JS_lt_Fin.
    - apply classify_gt. now apply JS_gt_Fin.
    - apply classify_hold.
      + destruct (JS.lt (JS.Fin r) 1.4) eqn:E; [| reflexivity].
        apply JS_lt_Fin in E. lra.
      + destruct (JS.gt (JS.Fin r) 1.6) eqn:E; [| reflexivity].
        apply JS_gt_Fin in E. lra. }
  assert (H10 : classify (JS.Fin 1.0) NONE = CLOSED)
    by (apply (Hfin 1.0 NONE); lra).
  assert (H15 : classify (JS.Fin 1.5) CLOSED = CLOSED)
    by (apply (Hfin 1.5 CLOSED); lra).
  assert (H18 : classify (JS.Fin 1.8) CLOSED = OPEN)
    by (apply (Hfin 1.8 CLOSED); lra).
  split; [| split; [exact Hfin | split; [| split]]].
  - intros c prev. clear Hfin H10 H15 H18.
    split; [apply classify_lt |].
    split; [apply classify_gt |].
    split; [apply classify_hold |].
    unfold classify.
    destruct (JS.lt c 1.4) eqn:E1;
      [rewrite (JS_lt_gt_excl c 1.4 1.6) by (lra || assumption)
      | destruct (JS.gt c 1.6) eqn:E2];
      (split; split; intros H;
       [ try reflexivity; try (now left); try (now right); try discriminate H
       | try reflexivity; destruct H as [H | (H1 & H2 & H3)]; congruence
       | try reflexivity; try (now left); try (now right); try discriminate H
       | try reflexivity; destruct H as [H | (H1 & H2 & H3)]; congruence ]).
  - intros lm rest w. apply (processResults_present lm rest w).
  - cbn [classifyAll]. now rewrite H10, H15, H15, H18.
  - unfold frameOf. cbn [gestureTrace].
    pose proof (step_tick_gesture (handOf 1 1.0) [] initialWorld) as [G1 L1].
    set (w1 := step initialWorld _) in *.
    pose proof (step_tick_gesture (handOf 1 1.5) [] w1) as [G2 L2].
    set (w2 := step w1 _) in *.
    pose proof (step_tick_gesture (handOf 1 1.5) [] w2) as [G3 L3].
    set (w3 := step w2 _) in *.
    pose proof (step_tick_gesture (handOf 1 1.8) [] w3) as [G4 L4].
    set (w4 := step w3 _) in *.
    rewrite compactness_handOf in * by lra.
    simpl lastGestureRef in *.
    rewrite H10 in *. rewrite L1 in *. rewrite H15 in *.
    rewrite L2 in *. rewrite H15 in *. rewrite L3 in *. rewrite H18 in *.
    now rewrite G1, G2, G3, G4.
Qed.

Lemma classify_NONE (c : JS.number) (prev : Gesture) :
  classify c prev = NONE ->
  prev = NONE /\ JS.lt c 1.4 = false /\ JS.gt c 1.6 = false.
Proof.
  unfold classify.
  destruct (JS.lt c 1.4); [discriminate |].
  destruct (JS.gt c 1.6); [discriminate | easy].
Qed.

(** ** Edge-triggered transitions *)

Lemma processResults_activeState (lm : Hand) (rest : list Hand) (w : World) :
  let g := classify (compactness lm) (lastGestureRef w) in
  activeState (fst (processResults (frameWith lm rest) w)) =
    if Gesture_eqb g (lastGestureRef w) then activeState w
    else match g with
         | CLOSED => FORMED
         | OPEN => CHAOS
         | NONE => activeState w
         end.
Proof.
  unfold processResults, frameWith; simpl.
  destruct (Gesture_eqb _ _) eqn:E; [reflexivity |].
  destruct (classify (compactness lm) (lastGestureRef w)); reflexivity.
Qed.

(** C3.  The state machine is edge-triggered.  When two consecutive ticks
    with a hand classify the same gesture, the second one requests no
    transition and leaves the application state alone.  In a tick with a
    hand, [transitionTo FORMED] is requested (once, and nothing else)
    exactly when the classifier output is CLOSED and differs from the
    previously stored gesture, and [transitionTo CHAOS] exactly when it is
    OPEN and differs from it; no other request is ever made, and a request
    sets the application state. *)
Theorem transitions_edge_triggered :
  (forall (lm1 lm2 : Hand) (rest1 rest2 : list Hand) (w : World),
      let r1 := processResults (frameWith lm1 rest1) w in
      let r2 := processResults (frameWith lm2 rest2) (fst r1) in
      HandData.gesture (handDataRef (fst r2))
        = HandData.gesture (handDataRef (fst r1)) ->
      snd r2 = [] /\ activeState (fst r2) = activeState (fst r1)) /\
  (forall (lm : Hand) (rest : list Hand) (w : World),
      let g := classify (compactness lm) (lastGestureRef w) in
      let r := processResults (frameWith lm rest) w in
      (snd r = [FORMED] <-> g = CLOSED /\ g <> lastGestureRef w) /\
      (snd r = [CHAOS] <-> g = OPEN /\ g <> lastGestureRef w) /\
      (snd r = [] <-> g = lastGestureRef w) /\
      (snd r = [] \/ snd r = [FORMED] \/ snd r = [CHAOS]) /\
      activeState (fst r) = List.last (snd r) (activeState w)).
Proof.
  split.
  - intros lm1 lm2 rest1 rest2 w r1 r2 Hsame.
    pose proof (processResults_present lm1 rest1 w) as (G1 & L1 & _).
    pose proof (processResults_present lm2 rest2 (fst r1)) as (G2 & L2 & _).
    fold (frameWith lm1 rest1) in G1, L1. fold (frameWith lm2 rest2) in G2, L2.
    fold r1 in G1, L1, G2, L2. fold r2 in G2, L2.
    assert (E : classify (compactness lm2) (lastGestureRef (fst r1))
                = lastGestureRef (fst r1)) by congruence.
    apply Gesture_eqb_eq in E.
    split.
    + subst r2. unfold frameWith. rewrite processResults_requests. now rewrite E.
    + subst r2. rewrite processResults_activeState. now rewrite E.
  - intros lm rest w g r.
    pose proof (processResults_requests lm rest w) as Hreq.
    pose proof (processResults_activeState lm rest w) as Hact.
    fold (frameWith lm rest) in Hreq. fold g in Hreq, Hact. fold r in Hreq, Hact.
    rewrite Hreq, Hact.
    destruct (Gesture_eqb g (lastGestureRef w)) eqn:E.
    + apply Gesture_eqb_eq in E.
      repeat split; try (intros; congruence); try (now left);
        intros (_ & H); now destruct H.
    + apply Gesture_eqb_neq in E.
      destruct g eqn:Eg; simpl.
      * repeat split; try (intros; congruence); try discriminate;
          try (intros (H & _); discriminate H); try assumption.
        right; now right.
      * repeat split; try (intros; congruence); try discriminate;
          try (intros (H & _); discriminate H); try assumption.
        right; now left.
      * subst g. apply classify_NONE in Eg. destruct Eg as (Hl & _).
        now destruct E.
Qed.

(** ** Ticks without a hand *)

Lemma presentHand_noHand : presentHand noHand = None.
Proof. reflexivity. Qed.

Lemma run_app (es1 es2 : list Event) (w : World) :
  run (es1 ++ es2) w = run es2 (run es1 w).
Proof. unfold run. apply fold_left_app. Qed.

Lemma run_absent (n : nat) (w : World) :
  let w' := run (repeat (Tick noHand) n) w in
  activeState w' = activeState w /\
  lastGestureRef w' = lastGestureRef w /\
  HandData.gesture (handDataRef w') = HandData.gesture (handDataRef w) /\
  HandData.x (handDataRef w') = HandData.x (handDataRef w) /\
  HandData.y (handDataRef w') = HandData.y (handDataRef w) /\
  HandData.z (handDataRef w') = HandData.z (handDataRef w) /\
  ((0 < n)%nat -> HandData.isPresent (handDataRef w') = false).
Proof.
  cbv zeta. unfold run. revert w.
  induction n as [| n IH]; intros w.
  - simpl. repeat split; try reflexivity. lia.
  - cbn [repeat fold_left].
    destruct (IH (step w (Tick noHand))) as (A & L & G & X & Y & Z & P).
    rewrite A, L, G, X, Y, Z. simpl.
    repeat split; try reflexivity.
    intros _. destruct n as [| n']; [reflexivity | apply P; lia].
Qed.

(** C4.  A detection tick in which no hand is detected ([results.landmarks]
    missing or empty) sets [isPresent] to false, leaves [x], [y], [z] and
    [gesture] of the shared ref as they were, requests no transition and
    leaves the application state alone.  So any number of such ticks keeps
    the application state and the stale gesture; after a tick whose
    classification changed to CLOSED the state is FORMED and stays FORMED
    through them, as in the run of one closed-hand tick and ten absent ticks
    from the initial world. *)
Theorem absent_tick_keeps_state :
  (forall (results : Results) (w : World),
      presentHand results = None ->
      let r := processResults results w in
      HandData.isPresent (handDataRef (fst r)) = false /\
      HandData.x (handDataRef (fst r)) = HandData.x (handDataRef w) /\
      HandData.y (handDataRef (fst r)) = HandData.y (handDataRef w) /\
      HandData.z (handDataRef (fst r)) = HandData.z (handDataRef w) /\
      HandData.gesture (handDataRef (fst r)) = HandData.gesture (handDataRef w) /\
      snd r = [] /\
      activeState (fst r) = activeState w) /\
  (forall (n : nat) (w : World),
      let w' := run (repeat (Tick noHand) n) w in
      activeState w' = activeState w /\
      HandData.gesture (handDataRef w') = HandData.gesture (handDataRef w) /\
      ((0 < n)%nat -> HandData.isPresent (handDataRef w') = false)) /\
  (forall (lm : Hand) (rest : list Hand) (n : nat) (w : World),
      classify (compactness lm) (lastGestureRef w) = CLOSED ->
      lastGestureRef w <> CLOSED ->
      let w' := run (Tick (frameWith lm rest) :: repeat (Tick noHand) n) w in
      activeState w' = FORMED /\
      HandData.gesture (handDataRef w') = CLOSED) /\
  (let w' := run (Tick (frameOf 1 1.0) :: repeat (Tick noHand) 10) initialWorld in
   activeState w' = FORMED /\
   HandData.gesture (handDataRef w') = CLOSED /\
   HandData.isPresent (handDataRef w') = false).
Proof.
  assert (Hrun : forall (lm : Hand) (rest : list Hand) (n : nat) (w : World),
      classify (compactness lm) (lastGestureRef w) = CLOSED ->
      lastGestureRef w <> CLOSED ->
      let w' := run (Tick (frameWith lm rest) :: repeat (Tick noHand) n) w in
      activeState w' = FORMED /\
      HandData.gesture (handDataRef w') = CLOSED /\
      ((0 < n)%nat -> HandData.isPresent (handDataRef w') = false)).
  { intros lm rest n w Hc Hl w'. subst w'.
    change (Tick (frameWith lm rest) :: repeat (Tick noHand) n)
      with ([Tick (frameWith lm rest)] ++ repeat (Tick noHand) n).
    rewrite run_app.
    destruct (run_absent n (run [Tick (frameWith lm rest)] w))
      as (A & _ & G & _ & _ & _ & P).
    cbv zeta in A, G, P. rewrite A, G. simpl.
    pose proof (processResults_present lm rest w) as (G1 & _).
    pose proof (processResults_activeState lm rest w) as A1.
    cbv zeta in G1, A1. fold (frameWith lm rest) in G1.
    rewrite G1, A1, Hc.
    assert (E : Gesture_eqb CLOSED (lastGestureRef w) = false)
      by (apply Gesture_eqb_neq; congruence).
    rewrite E. repeat split. exact P. }
  split; [| split; [| split]].
  - intros results w Habs r. subst r.
    rewrite (processResults_absent results w Habs). simpl. easy.
  - intros n w w'. destruct (run_absent n w) as (A & _ & G & _ & _ & _ & P).
    easy.
  - intros lm rest n w Hc Hl w'.
    destruct (Hrun lm rest n w Hc Hl) as (A & G & _). easy.
  - assert (Hc : classify (compactness (handOf 1 1.0)) (lastGestureRef initialWorld)
                 = CLOSED).
    { rewrite compactness_handOf by lra. apply classify_lt.
      apply JS_lt_Fin. lra. }
    destruct (Hrun (handOf 1 1.0) [] 10%nat initialWorld Hc) as (A & G & P).
    { simpl. discriminate. }
    cbv zeta in *. unfold frameOf, frameWith in *.
    repeat split; try assumption.
Qed.

(** ** The stored gesture never returns to NONE *)

Lemma step_refsAgree (w : World) (e : Event) :
  refsAgree w -> refsAgree (step w e).
Proof.
  unfold refsAgree. intros H. destruct e as [results | state]; [| exact H].
  simpl. destruct (presentHand results) as [lm |] eqn:E.
  - destruct results as [[[| lm' rest] |]]; try discriminate E.
    injection E as ->.
    pose proof (processResults_present lm rest w) as (G & L & _).
    cbv zeta in G, L. congruence.
  - rewrite (processResults_absent results w E). exact H.
Qed.

Lemma step_lastGesture_not_NONE (w : World) (e : Event) :
  lastGestureRef w <> NONE -> lastGestureRef (step w e) <> NONE.
Proof.
  intros H. destruct e as [results | state]; [| exact H].
  simpl. destruct (presentHand results) as [lm |] eqn:E.
  - destruct results as [[[| lm' rest] |]]; try discriminate E.
    injection E as ->.
    pose proof (processResults_present lm rest w) as (_ & L & _).
    cbv zeta in L. rewrite L. intros Hn.
    apply classify_NONE in Hn. now destruct Hn.
  - rewrite (processResults_absent results w E). exact H.
Qed.

Lemma run_refsAgree (es : list Event) (w : World) :
  refsAgree w -> refsAgree (run es w).
Proof.
  unfold run. revert w. induction es as [| e es IH]; intros w H; [exact H |].
  simpl. apply IH. now apply step_refsAgree.
Qed.

Lemma run_lastGesture_not_NONE (es : list Event) (w : World) :
  lastGestureRef w <> NONE -> lastGestureRef (run es w) <> NONE.
Proof.
  unfold run. revert w. induction es as [| e es IH]; intros w H; [exact H |].
  simpl. apply IH. now apply step_lastGesture_not_NONE.
Qed.

(** C9, as stated, fails on a frame the detector type allows: with all
    landmarks at one point the compactness is 0/0 = NaN, the classifier
    keeps a previous NONE, and NaN is not in the dead band. *)
Lemma classify_NONE_outside_dead_band :
  compactness (handOf 0 0) = JS.NaN /\
  classify (compactness (handOf 0 0)) NONE = NONE /\
  ~ inBand (compactness (handOf 0 0)) 1.4 1.6.
Proof.
  rewrite compactness_handOf_0_0. repeat split; try easy.
Qed.

(** C9, amended.  The classifier outputs NONE only if the previous gesture
    is NONE and the compactness is neither below 1.4 nor above 1.6, that
    is, it lies in the dead band [[1.4, 1.6]] or is NaN; conversely it does
    output NONE in each of these cases.  Hence, over all events of a
    session (detection ticks and manual overrides), once the stored
    gesture is OPEN or CLOSED it is never NONE again. *)
Theorem gesture_never_returns_to_NONE :
  (forall (c : JS.number) (g : Gesture),
      classify c g = NONE <->
      g = NONE /\ (inBand c 1.4 1.6 \/ c = JS.NaN)) /\
  (forall (es : list Event) (w : World),
      refsAgree w ->
      HandData.gesture (handDataRef w) <> NONE ->
      HandData.gesture (handDataRef (run es w)) <> NONE /\
      lastGestureRef (run es w) <> NONE) /\
  (forall (es1 es2 : list Event),
      HandData.gesture (handDataRef (run es1 initialWorld)) <> NONE ->
      HandData.gesture (handDataRef (run (es1 ++ es2) initialWorld)) <> NONE).
Proof.
  assert (Hinv : forall (es : list Event) (w : World),
      refsAgree w ->
      HandData.gesture (handDataRef w) <> NONE ->
      HandData.gesture (handDataRef (run es w)) <> NONE /\
      lastGestureRef (run es w) <> NONE).
  { intros es w Hagree Hg.
    pose proof (run_refsAgree es w Hagree) as Hagree'.
    unfold refsAgree in *. rewrite Hagree'.
    split; apply run_lastGesture_not_NONE; congruence. }
  split; [| split; [exact Hinv |]].
  - intros c g. split.
    + intros H. apply classify_NONE in H. destruct H as (Hg & Hl & Hr).
      split; [exact Hg |]. apply dead_branch_iff. now split.
    + intros (-> & H). apply dead_branch_iff in H. destruct H as (Hl & Hr).
      now apply classify_hold.
  - intros es1 es2 H. rewrite run_app.
    apply Hinv; [| exact H].
    apply run_refsAgree. reflexivity.
Qed.

(** ** Depth mapping *)

Lemma zoomFactor_cases (p : R) :
  (p <= 0.05 -> zoomFactor p = 0) /\
  (0.05 <= p <= 0.3 -> zoomFactor p = (p - 0.05) * 4.0) /\
  (0.3 <= p -> zoomFactor p = 1).
Proof.
  unfold zoomFactor, Rmin, Rmax.
  repeat split; intros H;
    destruct (Rle_dec ((p - 0.05) * 4.0) 0);
    match goal with |- context [Rle_dec ?a ?b] => destruct (Rle_dec a b) end;
    lra.
Qed.

(** C6.  For every real palm size the depth mapping
    [clamp((palmSize - 0.05) * 4.0, 0, 1)] lies in [[0, 1]], is 0 for every
    palm size at most 0.05 and 1 for every palm size at least 0.3, and is
    the affine map, hence strictly increasing, between the two; it is the
    value a tick with a hand stores in [z]. *)
Theorem zoomFactor_clamped_monotone :
  (forall p : R, 0 <= zoomFactor p <= 1) /\
  (forall p : R, p <= 0.05 -> zoomFactor p = 0) /\
  (forall p : R, 0.3 <= p -> zoomFactor p = 1) /\
  (forall p q : R, 0.05 <= p -> p < q -> q <= 0.3 -> zoomFactor p < zoomFactor q) /\
  (forall p q : R, p <= q -> zoomFactor p <= zoomFactor q) /\
  (forall (lm : Hand) (rest : list Hand) (w : World),
      HandData.z (handDataRef (fst (processResults (frameWith lm rest) w)))
      = zoomFactor (palmSize lm)).
Proof.
  assert (Hrange : forall p : R, 0 <= zoomFactor p <= 1).
  { intros p. unfold zoomFactor, Rmin, Rmax.
    destruct (Rle_dec ((p - 0.05) * 4.0) 0);
      match goal with |- context [Rle_dec ?a ?b] => destruct (Rle_dec a b) end;
      lra. }
  split; [exact Hrange |].
  split; [intros p; apply zoomFactor_cases |].
  split; [intros p; apply zoomFactor_cases |].
  split; [| split].
  - intros p q Hp Hpq Hq.
    rewrite (proj1 (proj2 (zoomFactor_cases p))) by lra.
    rewrite (proj1 (proj2 (zoomFactor_cases q))) by lra. lra.
  - intros p q Hpq.
    destruct (Rle_dec p 0.05) as [Hp | Hp].
    { rewrite (proj1 (zoomFactor_cases p)) by lra. apply Hrange. }
    destruct (Rle_dec 0.3 q) as [Hq | Hq].
    { rewrite (proj2 (proj2 (zoomFactor_cases q))) by lra. apply Hrange. }
    rewrite (proj1 (proj2 (zoomFactor_cases p))) by lra.
    rewrite (proj1 (proj2 (zoomFactor_cases q))) by lra. lra.
  - intros lm rest w. apply (processResults_present lm rest w).
Qed.

(** ** The unguarded division *)

Lemma tipDistance_nonneg (lm : Hand) (i : nat) : 0 <= tipDistance lm i.
Proof. unfold tipDistance. apply sqrt_pos. Qed.

Lemma avgDist_nonneg (lm : Hand) : 0 <= avgDist lm.
Proof.
  unfold avgDist, totalDist, tips. cbn [fold_left].
  pose proof (tipDistance_nonneg lm 8). pose proof (tipDistance_nonneg lm 12).
  pose proof (tipDistance_nonneg lm 16). pose proof (tipDistance_nonneg lm 20).
  lra.
Qed.

Lemma palmSize_coincide (lm : Hand) : lm 0%nat = lm 9%nat -> palmSize lm = 0.
Proof.
  intros H. unfold palmSize. rewrite H.
  replace (_ + _) with 0 by ring. apply sqrt_0.
Qed.

(** C8.  The compactness is the quotient of the average wrist-to-fingertip
    distance by the palm size, with no guard.  When the palm size is
    positive it is that finite quotient.  For every frame whose wrist
    (landmark 0) coincides with the middle-finger MCP (landmark 9) the palm
    size is 0, the division is by zero, and the value handed to the
    classifier is not finite: it is +Infinity when some fingertip is away
    from the wrist and NaN when the four fingertips are at the wrist too. *)
Theorem compactness_division_unguarded :
  (forall lm : Hand,
      0 < palmSize lm ->
      compactness lm = JS.Fin (avgDist lm / palmSize lm)) /\
  (forall lm : Hand,
      lm 0%nat = lm 9%nat ->
      palmSize lm = 0 /\
      JS.isFinite (compactness lm) = false /\
      (compactness lm = JS.PInf \/ compactness lm = JS.NaN) /\
      (0 < avgDist lm -> compactness lm = JS.PInf) /\
      (avgDist lm = 0 -> compactness lm = JS.NaN)).
Proof.
  split.
  - intros lm Hp. unfold compactness. apply JS_div_pos. lra.
  - intros lm H. pose proof (palmSize_coincide lm H) as Hz.
    unfold compactness. rewrite Hz.
    split; [reflexivity |]. split; [apply JS_div_zero |].
    pose proof (avgDist_nonneg lm) as Hnn.
    unfold JS.div. destruct (Req_dec_T 0 0) as [_ | Hn]; [| now destruct Hn].
    split; [| split; intros Ha].
    + destruct (Rlt_dec 0 (avgDist lm)); [now left |].
      destruct (Rlt_dec (avgDist lm) 0); [lra | now right].
    + destruct (Rlt_dec 0 (avgDist lm)); [reflexivity | contradiction].
    + rewrite Ha. destruct (Rlt_dec 0 0); [lra | reflexivity].
Qed.

(** ** Camera presets and blend target *)

Lemma isChaos_false (st : TreeState) : isChaos st = false <-> st <> CHAOS.
Proof. destruct st; simpl; split; intros; try easy. Qed.

(** C5.  With a hand present, the camera rig lerps each coordinate of the
    camera toward a target built from presets selected by the application
    state: horizontal range 50 in CHAOS and 30 otherwise, vertical range 25
    and 15, vertical offset 2 and 5, maximum distance 40 and 35, minimum
    distance 12 in both; so for the same [handDataRef] the CHAOS ranges are
    strictly wider than the FORMED ones. *)
Theorem camera_presets_by_state
    (hd : HandData.t) (elapsedTime delta : R) (position : Vec3.t) :
  HandData.isPresent hd = true ->
  (rangeX (isChaos CHAOS) = 50 /\ rangeY (isChaos CHAOS) = 25 /\
   offsetY (isChaos CHAOS) = 2 /\ maxDist (isChaos CHAOS) = 40 /\
   minDist = 12) /\
  (forall st : TreeState,
      st <> CHAOS ->
      rangeX (isChaos st) = 30 /\ rangeY (isChaos st) = 15 /\
      offsetY (isChaos st) = 5 /\ maxDist (isChaos st) = 35) /\
  cameraTarget hd CHAOS =
    Vec3.mk (HandData.x hd * 50) (HandData.y hd * 25 + 2)
            (lerp 40 12 (HandData.z hd)) /\
  (forall st : TreeState,
      st <> CHAOS ->
      cameraTarget hd st =
        Vec3.mk (HandData.x hd * 30) (HandData.y hd * 15 + 5)
                (lerp 35 12 (HandData.z hd))) /\
  (forall st : TreeState,
      cameraRigFrame hd st elapsedTime delta position =
        Vec3.mk
          (lerp (Vec3.x position) (Vec3.x (cameraTarget hd st)) (2.0 * delta))
          (lerp (Vec3.y position) (Vec3.y (cameraTarget hd st)) (2.0 * delta))
          (lerp (Vec3.z position) (Vec3.z (cameraTarget hd st)) (2.0 * delta))) /\
  (rangeX (isChaos FORMED) < rangeX (isChaos CHAOS) /\
   rangeY (isChaos FORMED) < rangeY (isChaos CHAOS) /\
   maxDist (isChaos FORMED) < maxDist (isChaos CHAOS)).
Proof.
  intros Hpresent.
  split; [now repeat split |].
  split.
  { intros st Hst. apply isChaos_false in Hst. rewrite Hst. now repeat split. }
  split; [reflexivity |].
  split.
  { intros st Hst. apply isChaos_false in Hst.
    unfold cameraTarget. now rewrite Hst. }
  split.
  { intros st. unfold cameraRigFrame. now rewrite Hpresent. }
  simpl. lra.
Qed.

Lemma camera_presets_by_state_witness :
  cameraTarget (HandData.mk 1 1 0 OPEN true) CHAOS
  = Vec3.mk (1 * 50) (1 * 25 + 2) (lerp 40 12 0).
Proof.
  apply (camera_presets_by_state (HandData.mk 1 1 0 OPEN true) 0 0 (Vec3.mk 0 2 25)).
  reflexivity.
Defined.

(** C10.  The blend target is 1.0 if and only if the application state is
    CHAOS.  In every other state, the reserved FOCUS included, the blend
    target is 0.0 and the camera rig uses the same presets and the same
    target as in FORMED.  [transitionTo] accepts every state, FOCUS
    included, and makes it the application state. *)
Theorem blend_target_iff_chaos :
  (forall st : TreeState, targetStateValue st = 1 <-> st = CHAOS) /\
  (forall st : TreeState,
      st <> CHAOS ->
      targetStateValue st = 0 /\
      rangeX (isChaos st) = rangeX (isChaos FORMED) /\
      rangeY (isChaos st) = rangeY (isChaos FORMED) /\
      offsetY (isChaos st) = offsetY (isChaos FORMED) /\
      maxDist (isChaos st) = maxDist (isChaos FORMED) /\
      (forall (hd : HandData.t) (elapsedTime delta : R) (position : Vec3.t),
          cameraTarget hd st = cameraTarget hd FORMED /\
          cameraRigFrame hd st elapsedTime delta position
          = cameraRigFrame hd FORMED elapsedTime delta position)) /\
  (forall (st : TreeState) (w : World), activeState (transitionTo st w) = st) /\
  activeState (run [Manual FOCUS] initialWorld) = FOCUS /\
  targetStateValue FOCUS = 0 /\
  (forall (delta uState : R),
      blendStep FOCUS delta uState = lerp uState 0 (2.0 * delta)).
Proof.
  split.
  { intros st. destruct st; unfold targetStateValue; simpl; split; intros H;
      try reflexivity; try discriminate H; try lra. }
  split.
  { intros st Hst.
    destruct st; try (now destruct Hst);
      (split; [unfold targetStateValue; simpl; lra | now repeat split]). }
  split; [reflexivity |].
  split; [reflexivity |].
  split; [unfold targetStateValue; simpl; lra |].
  intros delta uState. unfold blendStep, targetStateValue; simpl.
  unfold lerp. lra.
Qed.

(** ** Blend parameter *)

Lemma blendStep_error (st : TreeState) (delta v : R) :
  blendStep st delta v - targetStateValue st
  = (1 - 2 * delta) * (v - targetStateValue st).
Proof.
  unfold blendStep, lerp. cbv zeta.
  replace 2.0 with 2 by lra. ring.
Qed.

Lemma blendAfter_error (n : nat) (st : TreeState) (delta v : R) :
  blendAfter n st delta v - targetStateValue st
  = (1 - 2 * delta) ^ n * (v - targetStateValue st).
Proof.
  induction n as [| n IH].
  - simpl. ring.
  - cbn [blendAfter]. rewrite blendStep_error, IH. simpl. ring.
Qed.

(** For a factor [t] in [[0, 1]], [n] steps shrink the error at least by
    [1 + n * t]. *)
Lemma pow_shrink (t : R) (n : nat) :
  0 <= t <= 1 -> 0 <= (1 - t) ^ n /\ (1 - t) ^ n * (1 + INR n * t) <= 1.
Proof.
  intros Ht. induction n as [| n (IH0 & IH1)].
  - simpl. lra.
  - rewrite S_INR. cbn [pow]. split; [nra |].
    pose proof (pos_INR n) as Hn.
    assert (H : (1 - t) * (1 + (INR n + 1) * t) <= 1 + INR n * t) by nra.
    apply Rle_trans with ((1 - t) ^ n * (1 + INR n * t)); [| exact IH1].
    rewrite Rmult_assoc, (Rmult_comm (1 - t)), Rmult_assoc.
    apply Rmult_le_compat_l; [exact IH0 |].
    rewrite Rmult_comm. exact H.
Qed.

(** C2, as stated, fails on the code, which calls [lerp] with the factor
    [2.0 * delta] and no [min(1, _)]: with a frame time of one second and
    the target 1.0 of CHAOS, the blend value jumps from 0 past the target
    to 2, then back to 0, and so on for ever, whereas the update worded in
    the specification would land on the target. *)
Lemma blend_overshoots_when_delta_large :
  0 < 1 /\
  targetStateValue CHAOS = 1 /\
  blendStep CHAOS 1 0 = 2 /\
  targetStateValue CHAOS < blendStep CHAOS 1 0 /\
  blendStep CHAOS 1 (blendStep CHAOS 1 0) = 0 /\
  specBlendStep CHAOS 1 0 = 1.
Proof.
  assert (E : blendStep CHAOS 1 0 = 2).
  { unfold blendStep, lerp, targetStateValue; simpl. lra. }
  rewrite E.
  unfold blendStep, specBlendStep, lerp, targetStateValue, Rmin; simpl.
  destruct (Rle_dec 1 (2.0 * 1)); lra.
Qed.

(** C2, amended.  For every constant application state (target 1.0 in
    CHAOS, 0.0 otherwise) and every fixed frame time [delta] with
    [0 < delta <= 0.5], where the lerp factor [2.0 * delta] is at most 1
    and the code agrees with the update worded in the specification: one
    render tick moves the blend value toward the target without passing
    it, strictly closer unless it is already there; after [n] ticks the
    distance to the target is the initial distance times
    [(1 - 2 * delta) ^ n], which is at most the initial distance divided by
    [1 + n * 2 * delta]; so for every tolerance the value is within it
    after a bounded number of ticks. *)
Theorem blend_monotone_no_overshoot (st : TreeState) (delta : R) :
  0 < delta -> delta <= 0.5 ->
  (targetStateValue st = 0 \/ targetStateValue st = 1) /\
  (forall v : R, blendStep st delta v = specBlendStep st delta v) /\
  (forall v : R,
      v <= targetStateValue st ->
      v <= blendStep st delta v <= targetStateValue st) /\
  (forall v : R,
      targetStateValue st <= v ->
      targetStateValue st <= blendStep st delta v <= v) /\
  (forall v : R,
      v <> targetStateValue st ->
      Rabs (blendStep st delta v - targetStateValue st)
      < Rabs (v - targetStateValue st)) /\
  (forall (n : nat) (v : R),
      Rabs (blendAfter n st delta v - targetStateValue st)
      = (1 - 2 * delta) ^ n * Rabs (v - targetStateValue st)) /\
  (forall (n : nat) (v : R),
      Rabs (blendAfter n st delta v - targetStateValue st)
        * (1 + INR n * (2 * delta))
      <= Rabs (v - targetStateValue st)) /\
  (forall (n : nat) (v : R),
      Rabs (blendAfter (S n) st delta v - targetStateValue st)
      <= Rabs (blendAfter n st delta v - targetStateValue st)) /\
  (forall v eps : R,
      0 < eps ->
      exists N : nat, forall n : nat,
        (N <= n)%nat ->
        Rabs (blendAfter n st delta v - targetStateValue st) < eps).
Proof.
  intros Hpos Hle.
  set (T := targetStateValue st).
  assert (Ht : 0 <= 2 * delta <= 1) by lra.
  assert (Habs : forall (n : nat) (v : R),
      Rabs (blendAfter n st delta v - T) = (1 - 2 * delta) ^ n * Rabs (v - T)).
  { intros n v. subst T. rewrite blendAfter_error, Rabs_mult.
    rewrite Rabs_pos_eq; [reflexivity |]. apply (pow_shrink _ n Ht). }
  assert (Hbound : forall (n : nat) (v : R),
      Rabs (blendAfter n st delta v - T) * (1 + INR n * (2 * delta))
      <= Rabs (v - T)).
  { intros n v. rewrite Habs.
    destruct (pow_shrink _ n Ht) as (H0 & H1).
    pose proof (Rabs_pos (v - T)) as Hv.
    rewrite Rmult_assoc, (Rmult_comm (Rabs _)), <- Rmult_assoc.
    rewrite <- (Rmult_1_l (Rabs (v - T))) at 2.
    now apply Rmult_le_compat_r. }
  split.
  { subst T. destruct st; unfold targetStateValue; simpl; lra. }
  split.
  { intros v. unfold blendStep, specBlendStep, lerp, Rmin.
    destruct (Rle_dec 1 (2.0 * delta)); [| lra].
    assert (delta = 0.5) as -> by lra. lra. }
  split.
  { intros v Hv. pose proof (blendStep_error st delta v) as E. fold T in E.
    nra. }
  split.
  { intros v Hv. pose proof (blendStep_error st delta v) as E. fold T in E.
    nra. }
  split.
  { intros v Hv. rewrite blendStep_error, Rabs_mult. fold T.
    assert (Hd : 0 < Rabs (v - T)) by (apply Rabs_pos_lt; lra).
    rewrite (Rabs_pos_eq (1 - 2 * delta)) by lra. nra. }
  split; [exact Habs |].
  split; [exact Hbound |].
  split.
  { intros n v. rewrite !Habs. cbn [pow].
    destruct (pow_shrink _ n Ht) as (H0 & _).
    pose proof (Rabs_pos (v - T)) as Hv.
    rewrite Rmult_assoc.
    rewrite <- (Rmult_1_l ((1 - 2 * delta) ^ n * Rabs (v - T))) at 2.
    apply Rmult_le_compat_r; [nra | lra]. }
  intros v eps Heps.
  destruct (archimed (Rabs (v - T) / (eps * (2 * delta)))) as (Hup & _).
  pose proof (Rabs_pos (v - T)) as Hv.
  assert (Hq : 0 <= Rabs (v - T) / (eps * (2 * delta))).
  { apply Rmult_le_pos; [exact Hv |].
    apply Rlt_le, Rinv_0_lt_compat. nra. }
  set (k := up (Rabs (v - T) / (eps * (2 * delta)))) in *.
  assert (Hk : (0 <= k)%Z).
  { apply le_IZR. lra. }
  exists (Z.to_nat k). intros n Hn.
  assert (HN : IZR k <= INR n).
  { rewrite <- (Z2Nat.id k Hk), <- INR_IZR_INZ. now apply le_INR. }
  pose proof (Hbound n v) as Hb.
  assert (Hm : Rabs (v - T) < INR n * (2 * delta) * eps).
  { assert (Hx : Rabs (v - T) / (eps * (2 * delta)) < INR n) by lra.
    apply (Rmult_lt_compat_r (eps * (2 * delta))) in Hx; [| nra].
    unfold Rdiv in Hx. rewrite Rmult_assoc, Rinv_l in Hx by nra. lra. }
  pose proof (Rabs_pos (blendAfter n st delta v - T)) as He.
  pose proof (pos_INR n) as Hnn.
  destruct (Rlt_dec (Rabs (blendAfter n st delta v - T)) eps) as [| Hno];
    [assumption |].
  exfalso. apply Rnot_lt_le in Hno.
  assert (eps * (1 + INR n * (2 * delta))
          <= Rabs (blendAfter n st delta v - T) * (1 + INR n * (2 * delta))).
  { apply Rmult_le_compat_r; [nra | exact Hno]. }
  nra.
Qed.

Lemma blend_monotone_no_overshoot_witness :
  0 <= blendStep CHAOS 0.016 0 <= targetStateValue CHAOS.
Proof.
  assert (Hpos : 0 < 0.016) by lra.
  assert (Hle : 0.016 <= 0.5) by lra.
  destruct (blend_monotone_no_overshoot CHAOS 0.016 Hpos Hle)
    as (_ & _ & Hup & _).
  apply Hup. unfold targetStateValue; simpl. lra.
Defined.

(** ** Particle generator *)

Section GeneratorFacts.

Variable random : nat -> R.
Variables (count : nat) (treeHeight treeRadius : R).

Lemma loop_S (n : nat) :
  loop random count treeHeight treeRadius (S n)
  = loopBody random count treeHeight treeRadius
             (loop random count treeHeight treeRadius n) n.
Proof.
  unfold loop. rewrite seq_S, fold_left_app. reflexivity.
Qed.

Lemma pointAt_insert_other (a : list R) (i j : nat) (v0 v1 v2 : R) :
  i <> j ->
  pointAt (<[(i * 3 + 2)%nat := v2]>
             (<[(i * 3 + 1)%nat := v1]> (<[(i * 3)%nat := v0]> a))) j
  = pointAt a j.
Proof.
  intros Hij. unfold pointAt.
  rewrite !list_lookup_insert_ne by lia. reflexivity.
Qed.

Lemma pointAt_insert_same (a : list R) (i : nat) (v0 v1 v2 : R) :
  (i * 3 + 2 < length a)%nat ->
  pointAt (<[(i * 3 + 2)%nat := v2]>
             (<[(i * 3 + 1)%nat := v1]> (<[(i * 3)%nat := v0]> a))) i
  = Some (Vec3.mk v0 v1 v2).
Proof.
  intros Hlen. unfold pointAt.
  rewrite (list_lookup_insert_ne _ (i * 3 + 2) (i * 3)) by lia.
  rewrite (list_lookup_insert_ne _ (i * 3 + 1) (i * 3)) by lia.
  rewrite list_lookup_insert_eq by lia.
  rewrite (list_lookup_insert_ne _ (i * 3 + 2) (i * 3 + 1)) by lia.
  rewrite list_lookup_insert_eq by (rewrite length_insert; lia).
  rewrite list_lookup_insert_eq by (rewrite !length_insert; lia).
  reflexivity.
Qed.

(** The loop invariant after [n] iterations. *)
Lemma loop_invariant (n : nat) :
  (n <= count)%nat ->
  let st := loop random count treeHeight treeRadius n in
  drawn st = (n * 7)%nat /\
  length (positionsTree (data st)) = (count * 3)%nat /\
  length (positionsSphere (data st)) = (count * 3)%nat /\
  length (randoms (data st)) = count /\
  (forall j : nat, (j < n)%nat ->
     pointAt (positionsSphere (data st)) j = Some (spherePoint random j)) /\
  (forall j : nat, (j < n)%nat ->
     randoms (data st) !! j = Some (random (j * 7)%nat)).
Proof.
  induction n as [| n IH]; intros Hn; cbv zeta.
  - unfold loop, allocate; simpl.
    rewrite !length_replicate. repeat split; try reflexivity; intros j Hj; lia.
  - destruct IH as (Hd & Ht & Hs & Hr & Hp & Hq); [lia |].
    rewrite loop_S.
    set (st := loop random count treeHeight treeRadius n) in *.
    unfold loopBody; cbn [data drawn positionsTree positionsSphere randoms].
    rewrite !length_insert.
    split; [lia |]. split; [exact Ht |]. split; [exact Hs |].
    split; [exact Hr |]. split.
    + intros j Hj. destruct (Nat.eq_dec j n) as [-> | Hne].
      * rewrite pointAt_insert_same by lia.
        unfold spherePoint. rewrite Hd. reflexivity.
      * rewrite pointAt_insert_other by lia. apply Hp. lia.
    + intros j Hj. destruct (Nat.eq_dec j n) as [-> | Hne].
      * rewrite list_lookup_insert_eq by lia. now rewrite Hd.
      * rewrite list_lookup_insert_ne by lia. apply Hq. lia.
Qed.

End GeneratorFacts.

Lemma norm_spherePoint (random : nat -> R) (i : nat) :
  0 <= random (i * 7 + 3)%nat ->
  norm (spherePoint random i) = 8 + random (i * 7 + 3)%nat * 2.
Proof.
  intros Hr. unfold norm, spherePoint; simpl.
  set (phi := acos _). set (theta := _ * PI * 2). set (r := 8 + _).
  assert (Sphi : sin phi * sin phi + cos phi * cos phi = 1).
  { pose proof (sin2_cos2 phi) as H. unfold Rsqr in H. exact H. }
  assert (Stheta : sin theta * sin theta + cos theta * cos theta = 1).
  { pose proof (sin2_cos2 theta) as H. unfold Rsqr in H. exact H. }
  replace (_ + _)
    with (r * r * (sin phi * sin phi
                     * (sin theta * sin theta + cos theta * cos theta)
                   + cos phi * cos phi)) by ring.
  rewrite Stheta, Rmult_1_r, Sphi, Rmult_1_r.
  apply sqrt_square. subst r. lra.
Qed.

(** C7.  For every particle count, every tree height and radius (the
    defaults 15 and 6 included) and every sequence of [Math.random()]
    results in [[0, 1)], [generateTreeData] returns tree and sphere
    position arrays of length [count * 3] each (and [count] randoms), and
    every sphere point, read back from the array, has Euclidean distance
    from the origin at least 8 and below 10, hence between 8 and 10. *)
Theorem generateTreeData_lengths_and_shell
    (random : nat -> R) (count : nat) (treeHeight treeRadius : R) :
  (forall k : nat, 0 <= random k < 1) ->
  let d := generateTreeData random count treeHeight treeRadius in
  length (positionsTree d) = (count * 3)%nat /\
  length (positionsSphere d) = (count * 3)%nat /\
  length (randoms d) = count /\
  (forall i : nat, (i < count)%nat ->
     exists p : Vec3.t,
       pointAt (positionsSphere d) i = Some p /\
       8 <= norm p < 10 /\ 8 <= norm p <= 10) /\
  length (positionsTree (generateTreeData1 random count)) = (count * 3)%nat /\
  length (positionsSphere (generateTreeData1 random count)) = (count * 3)%nat.
Proof.
  intros Hrand d.
  destruct (loop_invariant random count treeHeight treeRadius count (le_n count))
    as (_ & Ht & Hs & Hr & Hp & _).
  destruct (loop_invariant random count 15 6 count (le_n count))
    as (_ & Ht1 & Hs1 & _).
  subst d. unfold generateTreeData1, generateTreeData.
  split; [exact Ht |]. split; [exact Hs |]. split; [exact Hr |].
  split; [| split; [exact Ht1 | exact Hs1]].
  intros i Hi. exists (spherePoint random i).
  split; [now apply Hp |].
  pose proof (Hrand (i * 7 + 3)%nat) as H3.
  rewrite norm_spherePoint by lra. lra.
Qed.

Lemma generateTreeData_lengths_and_shell_witness :
  length (positionsSphere (generateTreeData (fun _ => 0.5) 2 15 6)) = (2 * 3)%nat.
Proof.
  apply (generateTreeData_lengths_and_shell (fun _ => 0.5) 2 15 6).
  intros k. lra.
Defined.

(** ** Instances at concrete inputs *)

Lemma classify_hysteresis_witness :
  classify (JS.Fin 1.0) NONE = CLOSED /\ classify (JS.Fin 1.5) OPEN = OPEN.
Proof.
  destruct classify_hysteresis as (_ & Hfin & _).
  split.
  - apply (Hfin 1.0 NONE). lra.
  - apply (Hfin 1.5 OPEN). lra.
Defined.

Lemma transitions_edge_triggered_witness :
  snd (processResults (frameWith (handOf 1 1.0) []) initialWorld) = [FORMED].
Proof.
  destruct transitions_edge_triggered as (_ & H).
  apply (H (handOf 1 1.0) [] initialWorld).
  rewrite compactness_handOf by lra. simpl lastGestureRef.
  rewrite classify_lt by (apply JS_lt_Fin; lra).
  split; [reflexivity | discriminate].
Defined.

Lemma absent_tick_keeps_state_witness :
  HandData.isPresent (handDataRef (fst (processResults noHand initialWorld)))
  = false /\
  snd (processResults noHand initialWorld) = [].
Proof.
  destruct absent_tick_keeps_state as (H & _).
  destruct (H noHand initialWorld presentHand_noHand)
    as (P & _ & _ & _ & _ & Q & _).
  now split.
Defined.

Lemma zoomFactor_clamped_monotone_witness :
  zoomFactor 0.1 < zoomFactor 0.2 /\ zoomFactor 0.01 = 0 /\ zoomFactor 0.5 = 1.
Proof.
  destruct zoomFactor_clamped_monotone as (_ & Hlo & Hhi & Hinc & _).
  split; [apply Hinc; lra |].
  split; [apply Hlo; lra | apply Hhi; lra].
Defined.

Lemma compactness_division_unguarded_witness :
  JS.isFinite (compactness (handOf 0 1)) = false /\
  compactness (handOf 1 1.5) = JS.Fin (avgDist (handOf 1 1.5) / palmSize (handOf 1 1.5)).
Proof.
  destruct compactness_division_unguarded as (Hpos & Hzero).
  split.
  - apply (Hzero (handOf 0 1)). reflexivity.
  - apply Hpos. rewrite palmSize_handOf; lra.
Defined.

Lemma gesture_never_returns_to_NONE_witness :
  let w := mkWorld (HandData.mk 0 0 0 CLOSED true) CLOSED CLOSED FORMED in
  let w' := run [Tick (frameOf 0 0); Tick noHand; Manual CHAOS] w in
  HandData.gesture (handDataRef w') <> NONE /\ lastGestureRef w' <> NONE.
Proof.
  destruct gesture_never_returns_to_NONE as (_ & H & _).
  apply H; [reflexivity | discriminate].
Defined.

Lemma blend_target_iff_chaos_witness :
  targetStateValue FOCUS = 0 /\ rangeX (isChaos FOCUS) = rangeX (isChaos FORMED).
Proof.
  destruct blend_target_iff_chaos as (_ & H & _).
  destruct (H FOCUS) as (T & RX & _); [discriminate |].
  now split.
Defined.

(** * Further properties of the tracker *)

Lemma zoomFactor_range (p : R) : 0 <= zoomFactor p <= 1.
Proof.
  unfold zoomFactor, Rmin, Rmax.
  destruct (Rle_dec ((p - 0.05) * 4.0) 0);
    match goal with |- context [Rle_dec ?a ?b] => destruct (Rle_dec a b) end;
    lra.
Qed.

Lemma classify_idem (c : JS.number) (prev : Gesture) :
  classify c (classify c prev) = classify c prev.
Proof.
  unfold classify. destruct (JS.lt c 1.4); [reflexivity |].
  destruct (JS.gt c 1.6); reflexivity.
Qed.

Lemma presentHand_Some (results : Results) (lm : Hand) :
  presentHand results = Some lm -> exists rest, results = frameWith lm rest.
Proof.
  destruct results as [[[| lm' rest] |]]; simpl; try discriminate.
  intros [= ->]. now exists rest.
Qed.

(** The three things a tick can do to the gesture ref, the application
    state and the request log. *)
Lemma tick_cases (results : Results) (w : World) :
  let r := processResults results w in
  (snd r = [] /\ lastGestureRef (fst r) = lastGestureRef w /\
   activeState (fst r) = activeState w /\
   currentGesture (fst r) = currentGesture w) \/
  (snd r = [FORMED] /\ lastGestureRef (fst r) = CLOSED /\
   lastGestureRef w <> CLOSED /\ activeState (fst r) = FORMED /\
   currentGesture (fst r) = CLOSED) \/
  (snd r = [CHAOS] /\ lastGestureRef (fst r) = OPEN /\
   lastGestureRef w <> OPEN /\ activeState (fst r) = CHAOS /\
   currentGesture (fst r) = OPEN).
Proof.
  cbv zeta. unfold processResults.
  destruct (presentHand results) as [lm |]; [| now left].
  destruct (Gesture_eqb _ _) eqn:E; [now left |].
  apply Gesture_eqb_neq in E.
  destruct (classify (compactness lm) (lastGestureRef w)) eqn:Eg; simpl.
  - right; right. repeat split; congruence.
  - right; left. repeat split; congruence.
  - apply classify_NONE in Eg. destruct Eg as (Hl & _). now destruct E.
Qed.

Lemma step_sessionInvariant (w : World) (e : Event) :
  sessionInvariant w -> sessionInvariant (step w e).
Proof.
  intros (Hz & Hg & Hc). destruct e as [results | state]; [| now repeat split].
  simpl. destruct (presentHand results) as [lm |] eqn:E.
  - destruct (presentHand_Some results lm E) as (rest & ->).
    pose proof (processResults_present lm rest w) as (G & L & _ & _ & _ & Z).
    cbv zeta in G, L, Z. fold (frameWith lm rest) in G, L, Z.
    unfold sessionInvariant. rewrite Z, G, L.
    split; [apply zoomFactor_range |]. split; [reflexivity |].
    destruct (tick_cases (frameWith lm rest) w)
      as [(_ & L' & _ & C') | [(_ & L' & _ & _ & C') | (_ & L' & _ & _ & C')]];
      cbv zeta in L', C'; congruence.
  - rewrite (processResults_absent results w E). now repeat split.
Qed.

Lemma run_sessionInvariant (es : list Event) (w : World) :
  sessionInvariant w -> sessionInvariant (run es w).
Proof.
  unfold run. revert w. induction es as [| e es IH]; intros w H; [exact H |].
  simpl. apply IH. now apply step_sessionInvariant.
Qed.

Lemma initialWorld_sessionInvariant : sessionInvariant initialWorld.
Proof. unfold sessionInvariant; simpl. repeat split; lra. Qed.

(** X1.  A tick with a hand stores the wrist position recentred and
    mirrored: [x = 1 - 2 * rawX] and [y = 1 - 2 * rawY], whatever the world
    was.  The stored coordinate is in [[-1, 1]] exactly when the raw one is
    in [[0, 1]] (nothing clamps it), it is 0 exactly at the raw centre 0.5,
    and a wrist further to one side is stored further to the other. *)
Theorem hand_position_mirrored :
  forall (lm : Hand) (rest : list Hand) (w : World),
    let hd := handDataRef (fst (processResults (frameWith lm rest) w)) in
    let rawX := Landmark.x (lm 0%nat) in
    let rawY := Landmark.y (lm 0%nat) in
    HandData.x hd = 1 - 2 * rawX /\
    HandData.y hd = 1 - 2 * rawY /\
    (-1 <= HandData.x hd <= 1 <-> 0 <= rawX <= 1) /\
    (-1 <= HandData.y hd <= 1 <-> 0 <= rawY <= 1) /\
    (HandData.x hd = 0 <-> rawX = 0.5) /\
    (HandData.y hd = 0 <-> rawY = 0.5) /\
    (forall (lm' : Hand) (rest' : list Hand) (w' : World),
        let hd' := handDataRef (fst (processResults (frameWith lm' rest') w')) in
        (rawX < Landmark.x (lm' 0%nat) <-> HandData.x hd' < HandData.x hd) /\
        (rawY < Landmark.y (lm' 0%nat) <-> HandData.y hd' < HandData.y hd)).
Proof.
  intros lm rest w hd rawX rawY.
  pose proof (processResults_present lm rest w) as (_ & _ & _ & X & Y & _).
  cbv zeta in X, Y. fold (frameWith lm rest) in X, Y. fold hd rawX in X.
  fold hd rawY in Y.
  rewrite X, Y.
  repeat split; try lra.
  - pose proof (processResults_present lm' rest' w') as (_ & _ & _ & X' & _).
    cbv zeta in X'. fold (frameWith lm' rest') in X'. rewrite X'. lra.
  - pose proof (processResults_present lm' rest' w') as (_ & _ & _ & X' & _).
    cbv zeta in X'. fold (frameWith lm' rest') in X'. rewrite X'. lra.
  - pose proof (processResults_present lm' rest' w') as (_ & _ & _ & _ & Y' & _).
    cbv zeta in Y'. fold (frameWith lm' rest') in Y'. rewrite Y'. lra.
  - pose proof (processResults_present lm' rest' w') as (_ & _ & _ & _ & Y' & _).
    cbv zeta in Y'. fold (frameWith lm' rest') in Y'. rewrite Y'. lra.
Qed.

(** X2.  Invariants of a session.  After any sequence of detection ticks
    and manual overrides from the initial world, the stored depth [z] is in
    [[0, 1]], the gesture exposed in the shared ref equals the tracker's
    private [lastGestureRef], and so does the gesture of the label state. *)
Theorem session_invariants :
  forall es : list Event,
    let w := run es initialWorld in
    0 <= HandData.z (handDataRef w) <= 1 /\
    HandData.gesture (handDataRef w) = lastGestureRef w /\
    currentGesture w = lastGestureRef w.
Proof.
  intros es. apply (run_sessionInvariant es initialWorld).
  apply initialWorld_sessionInvariant.
Qed.

(** X3.  Processing the same detector result a second time changes
    nothing and requests nothing: a tick is idempotent. *)
Theorem processResults_idempotent :
  forall (results : Results) (w : World),
    processResults results (fst (processResults results w))
    = (fst (processResults results w), []).
Proof.
  intros results w. unfold processResults.
  destruct (presentHand results) as [lm |] eqn:E; [| reflexivity].
  unfold classify.
  destruct (JS.lt (compactness lm) 1.4) eqn:E1;
    [| destruct (JS.gt (compactness lm) 1.6) eqn:E2];
    destruct (lastGestureRef w) eqn:El; simpl;
    rewrite ?E1, ?E2, ?El; simpl; rewrite ?E1, ?E2; reflexivity.
Qed.

Lemma holdingFrame_frameWith (lm : Hand) (rest : list Hand) :
  JS.lt (compactness lm) 1.4 = false /\ JS.gt (compactness lm) 1.6 = false ->
  holdingFrame (frameWith lm rest).
Proof. intros H. exact H. Qed.

Lemma holding_tick (results : Results) (w : World) :
  holdingFrame results ->
  let r := processResults results w in
  snd r = [] /\ lastGestureRef (fst r) = lastGestureRef w /\
  activeState (fst r) = activeState w.
Proof.
  unfold holdingFrame. intros H.
  destruct (presentHand results) as [lm |] eqn:E.
  - destruct (presentHand_Some results lm E) as (rest & ->).
    destruct H as (Hl & Hg).
    pose proof (classify_hold (compactness lm) (lastGestureRef w) Hl Hg) as Hc.
    cbv zeta. unfold frameWith.
    rewrite processResults_requests. fold (frameWith lm rest).
    rewrite processResults_activeState.
    pose proof (processResults_present lm rest w) as (_ & L & _).
    cbv zeta in L. fold (frameWith lm rest) in L. rewrite L, Hc.
    assert (Heq : Gesture_eqb (lastGestureRef w) (lastGestureRef w) = true)
      by now apply Gesture_eqb_eq.
    now rewrite Heq.
  - cbv zeta. now rewrite (processResults_absent results w E).
Qed.

(** X4.  Hysteresis absorbs jitter.  Through any run of ticks each of
    which has no hand or a compactness that is neither below 1.4 nor above
    1.6, no transition is requested, the stored gesture stays the last
    classified one and the application state stays what it was, also when
    a manual override has just set it. *)
Theorem holding_ticks_change_nothing
    (frames : list Results) (state : TreeState) (w : World) :
  Forall holdingFrame frames ->
  let es := map Tick frames in
  tickRequests es w = [] /\
  lastGestureRef (run es w) = lastGestureRef w /\
  activeState (run es w) = activeState w /\
  activeState (run (Manual state :: es) w) = state.
Proof.
  intros Hall.
  assert (Hgen : forall w0 : World,
    tickRequests (map Tick frames) w0 = [] /\
    lastGestureRef (run (map Tick frames) w0) = lastGestureRef w0 /\
    activeState (run (map Tick frames) w0) = activeState w0).
  { induction Hall as [| f fs Hf Hfs IH]; intros w0; [now repeat split |].
    destruct (holding_tick f w0 Hf) as (Hs & Hl & Ha). cbv zeta in Hs, Hl, Ha.
    destruct (IH (fst (processResults f w0))) as (IH1 & IH2 & IH3).
    cbn [map tickRequests]. unfold run in *. cbn [fold_left step].
    rewrite Hs, IH1, IH2, IH3, Hl, Ha. now repeat split. }
  cbv zeta. destruct (Hgen w) as (H1 & H2 & H3).
  split; [exact H1 |]. split; [exact H2 |]. split; [exact H3 |].
  destruct (Hgen (transitionTo state w)) as (_ & _ & H4).
  unfold run in *. cbn [fold_left step]. now rewrite H4.
Qed.

Lemma holding_ticks_change_nothing_witness :
  activeState
    (run (Manual CHAOS :: map Tick [frameOf 1 1.5; noHand; frameOf 0 0])
         initialWorld) = CHAOS.
Proof.
  apply (holding_ticks_change_nothing [frameOf 1 1.5; noHand; frameOf 0 0]
           CHAOS initialWorld).
  constructor; [| constructor; [exact I | constructor; [| constructor]]].
  - apply (holdingFrame_frameWith (handOf 1 1.5) []).
    rewrite compactness_handOf by lra. apply dead_branch_iff. left. simpl. lra.
  - apply (holdingFrame_frameWith (handOf 0 0) []).
    rewrite compactness_handOf_0_0. now split.
Defined.

Lemma alternates_cons (a : TreeState) (l : list TreeState) :
  alternates l ->
  (forall b : TreeState, head l = Some b -> a <> b) ->
  alternates (a :: l).
Proof.
  intros Hl Hh. destruct l as [| b l']; [exact I |].
  split; [now apply Hh | exact Hl].
Qed.

Lemma tickRequests_alternates (es : list Event) :
  forall w : World,
    alternates (tickRequests es w) /\
    (forall st : TreeState,
        head (tickRequests es w) = Some st ->
        requestOf (lastGestureRef w) <> Some st).
Proof.
  induction es as [| e es IH]; intros w.
  - split; [exact I | discriminate].
  - destruct e as [results | state]; cbn [tickRequests].
    + destruct (IH (step w (Tick results))) as (IHa & IHh).
      destruct (tick_cases results w)
        as [(S & L & _) | [(S & L & N & _) | (S & L & N & _)]];
        cbv zeta in S, L; cbn [step] in *; rewrite S, L in *.
      * now split.
      * cbn [app]. split.
        -- apply alternates_cons; [exact IHa |].
           intros b Hb Heq. subst b. now apply (IHh FORMED).
        -- intros st [= <-]. destruct (lastGestureRef w); simpl; congruence.
      * cbn [app]. split.
        -- apply alternates_cons; [exact IHa |].
           intros b Hb Heq. subst b. now apply (IHh CHAOS).
        -- intros st [= <-]. destruct (lastGestureRef w); simpl; congruence.
    + apply (IH (step w (Manual state))).
Qed.

(** X5.  Gesture-driven requests never repeat.  In the sequence of
    transitions requested by the detection ticks of a session, manual
    overrides interleaved or not, no two neighbours are equal: FORMED and
    CHAOS alternate, and the first request is not the one the gesture
    stored at the start had already asked for. *)
Theorem tick_requests_alternate :
  forall (es : list Event) (w : World),
    alternates (tickRequests es w) /\
    (forall st : TreeState,
        head (tickRequests es w) = Some st ->
        requestOf (lastGestureRef w) <> Some st) /\
    Forall (fun st => st = FORMED \/ st = CHAOS) (tickRequests es w).
Proof.
  intros es w. destruct (tickRequests_alternates es w) as (Ha & Hh).
  split; [exact Ha |]. split; [exact Hh |].
  clear Ha Hh. revert w. induction es as [| e es IH]; intros w; [constructor |].
  destruct e as [results | state]; cbn [tickRequests]; [| apply IH].
  apply Forall_app. split; [| apply IH].
  destruct (tick_cases results w)
    as [(S & _) | [(S & _) | (S & _)]]; cbv zeta in S; rewrite S.
  - constructor.
  - constructor; [now left | constructor].
  - constructor; [now right | constructor].
Qed.

(** X6.  Without manual overrides the application state mirrors the
    stored gesture: after any sequence of detection ticks from the initial
    world it is CHAOS when the stored gesture is OPEN and FORMED when it is
    CLOSED or still NONE. *)
Theorem state_mirrors_gesture (es : list Event) :
  Forall isTick es ->
  activeState (run es initialWorld)
  = stateOfGesture (HandData.gesture (handDataRef (run es initialWorld))).
Proof.
  intros Hall.
  destruct (run_sessionInvariant es initialWorld initialWorld_sessionInvariant)
    as (_ & -> & _).
  assert (Hgen : forall w : World,
    activeState w = stateOfGesture (lastGestureRef w) ->
    activeState (run es w) = stateOfGesture (lastGestureRef (run es w))).
  { induction Hall as [| e es' He Hes IH]; intros w Hw; [exact Hw |].
    destruct e as [results | state]; [| now destruct He].
    unfold run in *. cbn [fold_left]. apply IH. cbn [step].
    destruct (tick_cases results w)
      as [(_ & L & A & _) | [(_ & L & _ & A & _) | (_ & L & _ & A & _)]];
      cbv zeta in L, A; rewrite L, A; [exact Hw | reflexivity | reflexivity]. }
  now apply Hgen.
Qed.

Lemma state_mirrors_gesture_witness :
  activeState (run [Tick (frameOf 1 1.8); Tick noHand] initialWorld)
  = stateOfGesture
      (HandData.gesture
         (handDataRef (run [Tick (frameOf 1 1.8); Tick noHand] initialWorld))).
Proof.
  apply (state_mirrors_gesture [Tick (frameOf 1 1.8); Tick noHand]).
  repeat constructor.
Defined.

(** X7.  The reserved state is out of reach of the running application:
    after any sequence of detection ticks and clicks on the two buttons of
    the overlay, from the initial world, the application state is FORMED
    or CHAOS, never FOCUS; so the prompt poll always sets the prompt, and
    the blend target and camera presets are the ones of FORMED or CHAOS. *)
Theorem focus_unreachable (es : list Event) :
  Forall uiEvent es ->
  let st := activeState (run es initialWorld) in
  (st = FORMED \/ st = CHAOS) /\
  st <> FOCUS /\
  (forall (hand : HandData.t) (p q : PromptPhase.t),
      pollPrompt hand st p = pollPrompt hand st q).
Proof.
  intros Hall.
  assert (Hgen : forall w : World,
    activeState w = FORMED \/ activeState w = CHAOS ->
    activeState (run es w) = FORMED \/ activeState (run es w) = CHAOS).
  { induction Hall as [| e es' He Hes IH]; intros w Hw; [exact Hw |].
    unfold run in *. cbn [fold_left]. apply IH.
    destruct e as [results | state]; [| exact He].
    cbn [step].
    destruct (tick_cases results w)
      as [(_ & _ & A & _) | [(_ & _ & _ & A & _) | (_ & _ & _ & A & _)]];
      cbv zeta in A; rewrite A; auto. }
  cbv zeta. destruct (Hgen initialWorld) as [H | H]; [now left | |];
    rewrite H; (split; [auto | split; [discriminate |]]);
    intros hand p q; reflexivity.
Qed.

Lemma focus_unreachable_witness :
  activeState (run [Manual CHAOS; Tick (frameOf 1 1.0); Manual FORMED] initialWorld)
  = FORMED \/
  activeState (run [Manual CHAOS; Tick (frameOf 1 1.0); Manual FORMED] initialWorld)
  = CHAOS.
Proof.
  assert (Hui : Forall uiEvent
                  [Manual CHAOS; Tick (frameOf 1 1.0); Manual FORMED]).
  { constructor; [now right |]. constructor; [exact I |].
    constructor; [now left | constructor]. }
  destruct (focus_unreachable _ Hui) as (H & _). exact H.
Defined.

(** ** Compactness as a ratio *)

Lemma sqrt_scale3 (k a b c : R) :
  0 <= k ->
  sqrt ((k * a) * (k * a) + (k * b) * (k * b) + (k * c) * (k * c))
  = k * sqrt (a * a + b * b + c * c).
Proof.
  intros Hk.
  replace ((k * a) * (k * a) + (k * b) * (k * b) + (k * c) * (k * c))
    with ((k * k) * (a * a + b * b + c * c)) by ring.
  rewrite sqrt_mult by nra. now rewrite sqrt_square.
Qed.

Lemma palmSize_scale (k : R) (lm : Hand) :
  0 <= k -> palmSize (scaleHand k lm) = k * palmSize lm.
Proof.
  intros Hk. unfold palmSize, scaleHand; simpl.
  rewrite <- sqrt_scale3 by assumption. f_equal. ring.
Qed.

Lemma sqrt_scale3_pow (k a1 a0 b1 b0 c1 c0 : R) :
  0 <= k ->
  sqrt ((k * a1 - k * a0) ^ 2 + (k * b1 - k * b0) ^ 2 + (k * c1 - k * c0) ^ 2)
  = k * sqrt ((a1 - a0) ^ 2 + (b1 - b0) ^ 2 + (c1 - c0) ^ 2).
Proof.
  intros Hk.
  replace ((k * a1 - k * a0) ^ 2 + (k * b1 - k * b0) ^ 2 + (k * c1 - k * c0) ^ 2)
    with ((k * (a1 - a0)) * (k * (a1 - a0)) + (k * (b1 - b0)) * (k * (b1 - b0))
          + (k * (c1 - c0)) * (k * (c1 - c0))) by ring.
  replace ((a1 - a0) ^ 2 + (b1 - b0) ^ 2 + (c1 - c0) ^ 2)
    with ((a1 - a0) * (a1 - a0) + (b1 - b0) * (b1 - b0) + (c1 - c0) * (c1 - c0))
    by ring.
  now apply sqrt_scale3.
Qed.

Lemma tipDistance_scale (k : R) (lm : Hand) (i : nat) :
  0 <= k -> tipDistance (scaleHand k lm) i = k * tipDistance lm i.
Proof.
  intros Hk. unfold tipDistance, scaleHand.
  cbn [Landmark.x Landmark.y Landmark.z].
  now apply sqrt_scale3_pow.
Qed.

Lemma avgDist_scale (k : R) (lm : Hand) :
  0 <= k -> avgDist (scaleHand k lm) = k * avgDist lm.
Proof.
  intros Hk. unfold avgDist, totalDist, tips. cbn [fold_left].
  rewrite !tipDistance_scale by assumption. field.
Qed.

Lemma palmSize_move (d : Landmark.t) (lm : Hand) :
  palmSize (moveHand d lm) = palmSize lm.
Proof. unfold palmSize, moveHand; simpl. f_equal. ring. Qed.

Lemma tipDistance_move (d : Landmark.t) (lm : Hand) (i : nat) :
  tipDistance (moveHand d lm) i = tipDistance lm i.
Proof. unfold tipDistance, moveHand; simpl. f_equal. ring. Qed.

Lemma avgDist_move (d : Landmark.t) (lm : Hand) :
  avgDist (moveHand d lm) = avgDist lm.
Proof.
  unfold avgDist, totalDist, tips. cbn [fold_left].
  now rewrite !tipDistance_move.
Qed.

Lemma JS_div_scale (k a b : R) : 0 < k -> JS.div (k * a) (k * b) = JS.div a b.
Proof.
  intros Hk. unfold JS.div.
  destruct (Req_dec_T b 0) as [-> | Hb].
  - rewrite Rmult_0_r. destruct (Req_dec_T 0 0) as [_ | H]; [| now destruct H].
    destruct (Rlt_dec 0 a), (Rlt_dec 0 (k * a)); try nra; try reflexivity.
    destruct (Rlt_dec a 0), (Rlt_dec (k * a) 0); try nra; reflexivity.
  - destruct (Req_dec_T (k * b) 0) as [H | _]; [nra |].
    f_equal. field. split; lra.
Qed.

Lemma palmSize_nonneg (lm : Hand) : 0 <= palmSize lm.
Proof. unfold palmSize. apply sqrt_pos. Qed.

(** X8.  The compactness is a ratio of distances.  Scaling the hand by a
    positive factor (the hand nearer to or further from the camera)
    multiplies the palm size by that factor and leaves the compactness
    unchanged; moving the hand leaves both unchanged.  So the gesture a
    tick stores does not depend on the size or the place of the hand. *)
Theorem compactness_scale_and_move_invariant
    (k : R) (d : Landmark.t) (lm : Hand) :
  0 < k ->
  palmSize (scaleHand k lm) = k * palmSize lm /\
  compactness (scaleHand k lm) = compactness lm /\
  palmSize (moveHand d lm) = palmSize lm /\
  compactness (moveHand d lm) = compactness lm /\
  (forall (rest rest' : list Hand) (w : World),
      let g := HandData.gesture
                 (handDataRef (fst (processResults (frameWith lm rest) w))) in
      HandData.gesture
        (handDataRef (fst (processResults (frameWith (scaleHand k lm) rest') w)))
      = g /\
      HandData.gesture
        (handDataRef (fst (processResults (frameWith (moveHand d lm) rest') w)))
      = g).
Proof.
  intros Hk.
  assert (Hs : compactness (scaleHand k lm) = compactness lm).
  { unfold compactness. rewrite palmSize_scale, avgDist_scale by lra.
    now apply JS_div_scale. }
  assert (Hm : compactness (moveHand d lm) = compactness lm).
  { unfold compactness. now rewrite palmSize_move, avgDist_move. }
  split; [apply palmSize_scale; lra |]. split; [exact Hs |].
  split; [apply palmSize_move |]. split; [exact Hm |].
  intros rest rest' w g. subst g.
  pose proof (processResults_present lm rest w) as (G & _).
  pose proof (processResults_present (scaleHand k lm) rest' w) as (G1 & _).
  pose proof (processResults_present (moveHand d lm) rest' w) as (G2 & _).
  cbv zeta in G, G1, G2. unfold frameWith. rewrite G, G1, G2, Hs, Hm.
  now split.
Qed.

Lemma compactness_scale_and_move_invariant_witness :
  compactness (scaleHand 2 (handOf 1 1.5)) = compactness (handOf 1 1.5).
Proof.
  assert (Hk : 0 < 2) by lra.
  destruct (compactness_scale_and_move_invariant 2 (Landmark.mk 0 0 0)
              (handOf 1 1.5) Hk) as (_ & H & _).
  exact H.
Defined.

(** X9.  The compactness is never negative: it is a finite value at
    least 0, or +Infinity (palm size 0, some fingertip away from the
    wrist), or NaN (palm size 0, all fingertips at the wrist), and never
    -Infinity; in particular it is never below 0. *)
Theorem compactness_never_negative :
  forall lm : Hand,
    match compactness lm with
    | JS.Fin r => 0 <= r /\ 0 < palmSize lm
    | JS.PInf => 0 < avgDist lm /\ palmSize lm = 0
    | JS.NaN => avgDist lm = 0 /\ palmSize lm = 0
    | JS.NInf => False
    end /\
    JS.lt (compactness lm) 0 = false.
Proof.
  intros lm.
  pose proof (avgDist_nonneg lm) as Ha. pose proof (palmSize_nonneg lm) as Hp.
  unfold compactness, JS.div.
  destruct (Req_dec_T (palmSize lm) 0) as [Hz | Hnz].
  - destruct (Rlt_dec 0 (avgDist lm)); [now repeat split |].
    destruct (Rlt_dec (avgDist lm) 0); [lra |].
    repeat split; lra.
  - assert (Hq : 0 <= avgDist lm / palmSize lm).
    { apply Rmult_le_pos; [exact Ha |]. apply Rlt_le, Rinv_0_lt_compat. lra. }
    simpl. destruct (Rlt_dec (avgDist lm / palmSize lm) 0); [lra |].
    repeat split; lra.
Qed.

(** ** The detection loop *)

(** X10.  One call of [predictWebcam] schedules the next call exactly
    when the component is mounted and both refs are set.  It changes the
    world only by a successful detection on a video that has a width and
    is not paused, and then as [processResults] does; a detection that
    throws leaves the world untouched and the loop running.  The session
    invariants survive every call. *)
Theorem predictWebcam_guards :
  forall (isMounted : bool) (handLandmarkerRef : option HandLandmarker)
         (videoRef : option Video) (now : R) (w : World),
    let r := predictWebcam isMounted handLandmarkerRef videoRef now w in
    (snd r = true <->
       isMounted = true /\ is_Some handLandmarkerRef /\ is_Some videoRef) /\
    (fst r = w \/
     exists (landmarker : HandLandmarker) (video : Video) (results : Results),
       isMounted = true /\ handLandmarkerRef = Some landmarker /\
       videoRef = Some video /\ (0 < videoWidth video)%nat /\
       paused video = false /\ landmarker video now = Detected results /\
       fst r = fst (processResults results w)) /\
    (forall (landmarker : HandLandmarker) (video : Video),
        handLandmarkerRef = Some landmarker -> videoRef = Some video ->
        isMounted = true -> landmarker video now = Thrown ->
        r = (w, true)) /\
    (sessionInvariant w -> sessionInvariant (fst r)).
Proof.
  intros isMounted lmRef vRef now w r. subst r. unfold predictWebcam.
  destruct isMounted; simpl.
  2:{ split; [split; [discriminate | intros (Hm & _); discriminate Hm] |].
      split; [now left |].
      split; [intros l v _ _ Hm; discriminate Hm | easy]. }
  destruct lmRef as [landmarker |]; simpl.
  2:{ split; [split; [discriminate | intros (_ & [x Hx] & _); discriminate Hx] |].
      split; [now left |].
      split; [intros l v Hl; discriminate Hl | easy]. }
  destruct vRef as [video |]; simpl.
  2:{ split; [split; [discriminate | intros (_ & _ & [x Hx]); discriminate Hx] |].
      split; [now left |].
      split; [intros l v _ Hv; discriminate Hv | easy]. }
  split; [split; [intros _; repeat split; eexists; reflexivity | reflexivity] |].
  destruct (Nat.ltb 0 (videoWidth video)) eqn:Ew; simpl.
  2:{ split; [now left |]. split; [reflexivity | easy]. }
  destruct (paused video) eqn:Ep; simpl.
  { split; [now left |]. split; [reflexivity | easy]. }
  apply Nat.ltb_lt in Ew.
  destruct (landmarker video now) as [results |] eqn:Ed.
  - split.
    { right. exists landmarker, video, results. now repeat split. }
    split.
    + intros l v [= <-] [= <-] _ Hthrown. congruence.
    + intros Hinv. apply (step_sessionInvariant w (Tick results) Hinv).
  - split; [now left |]. split; [reflexivity | easy].
Qed.

(** * Further properties of the render loop *)

Lemma lerp_between (a b x y t : R) :
  0 <= t <= 1 -> a <= x <= b -> a <= y <= b -> a <= lerp x y t <= b.
Proof. intros Ht Hx Hy. unfold lerp. nra. Qed.

Lemma idleTarget_z_range (elapsedTime : R) :
  23 <= Vec3.z (idleTarget elapsedTime) <= 27.
Proof.
  unfold idleTarget; simpl.
  pose proof (COS_bound (elapsedTime * 0.15)). lra.
Qed.

Lemma cameraTarget_z_range (hd : HandData.t) (st : TreeState) :
  0 <= HandData.z hd <= 1 ->
  12 <= Vec3.z (cameraTarget hd st) <= maxDist (isChaos st).
Proof.
  intros Hz. unfold cameraTarget, minDist, lerp; simpl.
  destruct (isChaos st); simpl; nra.
Qed.

(** X11.  For hand data in its nominal ranges ([x], [y] in [[-1, 1]],
    [z] in [[0, 1]]) the hand-driven camera target lies in the box the
    presets span: [|targetX| <= rangeX], [targetY] within [rangeY] of
    [offsetY], [targetZ] between 12 and [maxDist].  The target distance
    falls strictly as the hand comes closer: it is [maxDist] at [z = 0]
    and 12 at [z = 1]. *)
Theorem cameraTarget_in_preset_box (hd : HandData.t) (st : TreeState) :
  -1 <= HandData.x hd <= 1 ->
  -1 <= HandData.y hd <= 1 ->
  0 <= HandData.z hd <= 1 ->
  let chaos := isChaos st in
  let target := cameraTarget hd st in
  - rangeX chaos <= Vec3.x target <= rangeX chaos /\
  offsetY chaos - rangeY chaos <= Vec3.y target <= offsetY chaos + rangeY chaos /\
  12 <= Vec3.z target <= maxDist chaos /\
  (-50 <= Vec3.x target <= 50 /\ -23 <= Vec3.y target <= 27 /\
   12 <= Vec3.z target <= 40) /\
  (HandData.z hd = 0 -> Vec3.z target = maxDist chaos) /\
  (HandData.z hd = 1 -> Vec3.z target = 12) /\
  (forall hd' : HandData.t,
      HandData.z hd < HandData.z hd' ->
      Vec3.z (cameraTarget hd' st) < Vec3.z target).
Proof.
  intros Hx Hy Hz. cbv zeta.
  unfold cameraTarget, minDist, lerp; cbn [Vec3.x Vec3.y Vec3.z].
  destruct (isChaos st); simpl; repeat split; intros; try nra.
Qed.

Lemma cameraTarget_in_preset_box_witness :
  12 <= Vec3.z (cameraTarget (HandData.mk 0.5 (-0.5) 0.25 OPEN true) CHAOS) <= 40.
Proof.
  assert (Hx : -1 <= 0.5 <= 1) by lra.
  assert (Hy : -1 <= -0.5 <= 1) by lra.
  assert (Hz : 0 <= 0.25 <= 1) by lra.
  destruct (cameraTarget_in_preset_box
              (HandData.mk 0.5 (-0.5) 0.25 OPEN true) CHAOS Hx Hy Hz)
    as (_ & _ & _ & (_ & _ & H) & _).
  exact H.
Defined.

Lemma cameraRigFrame_z_range
    (hd : HandData.t) (st : TreeState) (elapsedTime delta : R) (p : Vec3.t) :
  0 <= delta <= 0.5 -> 0 <= HandData.z hd <= 1 ->
  12 <= Vec3.z p <= 40 ->
  12 <= Vec3.z (cameraRigFrame hd st elapsedTime delta p) <= 40.
Proof.
  intros Hd Hz Hp. unfold cameraRigFrame.
  destruct (HandData.isPresent hd); cbn [Vec3.z].
  - apply lerp_between; [lra | exact Hp |].
    pose proof (cameraTarget_z_range hd st Hz) as H.
    destruct (isChaos st); unfold maxDist in H; lra.
  - apply lerp_between; [lra | exact Hp |].
    pose proof (idleTarget_z_range elapsedTime). lra.
Qed.

(** X12.  The camera keeps its distance.  Over any sequence of render
    ticks whose frame times are at most half a second and whose hand data
    has its depth in [[0, 1]] (as every world of a session has), hand
    present or not and whatever the application states, the camera's [z]
    stays between 12 and 40 when it starts there, as it does from the
    canvas's initial position. *)
Theorem camera_keeps_distance
    (frames : list (HandData.t * TreeState * R * R)) (position : Vec3.t) :
  Forall steadyFrame frames ->
  12 <= Vec3.z position <= 40 ->
  12 <= Vec3.z (cameraFrames frames position) <= 40 /\
  12 <= Vec3.z (cameraFrames frames initialCamera) <= 40.
Proof.
  intros Hall.
  assert (Hgen : forall p : Vec3.t,
    12 <= Vec3.z p <= 40 -> 12 <= Vec3.z (cameraFrames frames p) <= 40).
  { unfold cameraFrames.
    induction Hall as [| [[[hd st] e] d] fs (Hd & Hz) Hfs IH]; intros p Hp;
      [exact Hp |].
    cbn [fold_left]. apply IH. now apply cameraRigFrame_z_range. }
  intros Hp. split; [now apply Hgen |].
  apply Hgen. simpl. lra.
Qed.

Lemma camera_keeps_distance_witness :
  12 <= Vec3.z (cameraFrames
                  [(handDataRef initialWorld, FORMED, 0, 0.016);
                   (HandData.mk 0 0 1 CLOSED true, CHAOS, 0.016, 0.5)]
                  initialCamera) <= 40.
Proof.
  assert (Hall : Forall steadyFrame
                   [(handDataRef initialWorld, FORMED, 0, 0.016);
                    (HandData.mk 0 0 1 CLOSED true, CHAOS, 0.016, 0.5)]).
  { constructor; [simpl; lra |]. constructor; [simpl; lra | constructor]. }
  assert (Hp : 12 <= Vec3.z initialCamera <= 40) by (simpl; lra).
  destruct (camera_keeps_distance _ initialCamera Hall Hp) as (H & _).
  exact H.
Defined.

Lemma cos_one_needs_full_turn (b : R) : 0 < b < 2 * PI -> cos b <> 1.
Proof.
  intros Hb Hc.
  pose proof (sin2_cos2 b) as H. unfold Rsqr in H. rewrite Hc in H.
  assert (Hs : sin b = 0) by nra.
  destruct (Rlt_dec b PI) as [Hlt | Hge].
  - pose proof (sin_gt_0 b) as Hp. lra.
  - destruct (Req_dec_T b PI) as [-> | Hne].
    + rewrite cos_PI in Hc. lra.
    + pose proof (sin_lt_0 b) as Hn. lra.
Qed.

(** X13.  The idle camera target moves on an ellipse at height 2, centred
    at [(0, 2, 25)] with half-axes 4 along [x] and 2 along [z]: at elapsed
    time [e] it is [(4 * sin (0.15 * e), 2, 25 + 2 * cos (0.15 * e))].  It
    starts at [(0, 2, 27)], is at [(4, 2, 25)], [(0, 2, 23)] and
    [(-4, 2, 25)] after a quarter, a half and three quarters of
    [2 * PI / 0.15] seconds, is back after [2 * PI / 0.15] seconds, and at
    no earlier time: that is its period. *)
Theorem idleTarget_on_ellipse :
  forall elapsedTime : R,
    let target := idleTarget elapsedTime in
    (Vec3.x target / 4) * (Vec3.x target / 4)
    + ((Vec3.z target - 25) / 2) * ((Vec3.z target - 25) / 2) = 1 /\
    Vec3.y target = 2 /\
    -4 <= Vec3.x target <= 4 /\
    23 <= Vec3.z target <= 27 /\
    target = Vec3.mk (4 * sin (0.15 * elapsedTime)) 2
                     (25 + 2 * cos (0.15 * elapsedTime)) /\
    idleTarget 0 = Vec3.mk 0 2 27 /\
    idleTarget (PI / 2 / 0.15) = Vec3.mk 4 2 25 /\
    idleTarget (PI / 0.15) = Vec3.mk 0 2 23 /\
    idleTarget (3 * (PI / 2) / 0.15) = Vec3.mk (-4) 2 25 /\
    idleTarget (elapsedTime + 2 * PI / 0.15) = target /\
    (forall d : R,
        0 < d < 2 * PI / 0.15 -> idleTarget (elapsedTime + d) <> target).
Proof.
  intros e. cbv zeta. unfold idleTarget; cbn [Vec3.x Vec3.y Vec3.z].
  pose proof (sin2_cos2 (e * 0.15)) as H. unfold Rsqr in H.
  pose proof (SIN_bound (e * 0.15)). pose proof (COS_bound (e * 0.15)).
  split; [nra |]. split; [reflexivity |]. split; [lra |]. split; [lra |].
  split.
  { replace (0.15 * e) with (e * 0.15) by ring. f_equal; ring. }
  split.
  { replace (0 * 0.15) with 0 by lra. rewrite sin_0, cos_0. f_equal; lra. }
  split.
  { replace (PI / 2 / 0.15 * 0.15) with (PI / 2) by (field; lra).
    rewrite sin_PI2, cos_PI2. f_equal; lra. }
  split.
  { replace (PI / 0.15 * 0.15) with PI by (field; lra).
    rewrite sin_PI, cos_PI. f_equal; lra. }
  split.
  { replace (3 * (PI / 2) / 0.15 * 0.15) with (3 * (PI / 2)) by (field; lra).
    rewrite sin_3PI2, cos_3PI2. f_equal; lra. }
  split.
  { replace ((e + 2 * PI / 0.15) * 0.15) with (e * 0.15 + 2 * PI) by (field; lra).
    rewrite sin_plus, cos_plus, sin_2PI, cos_2PI. f_equal; ring. }
  intros d Hd Heq.
  injection Heq as Hs Hc.
  set (a := e * 0.15) in *. set (b := d * 0.15).
  replace ((e + d) * 0.15) with (a + b) in Hs, Hc by (unfold a, b; ring).
  assert (Hs' : sin (a + b) = sin a) by lra.
  assert (Hc' : cos (a + b) = cos a) by lra.
  assert (Hb : 0 < b < 2 * PI).
  { unfold b. pose proof PI_RGT_0 as Hpi. split; [nra |].
    destruct Hd as (_ & Hd).
    apply (Rmult_lt_compat_r 0.15) in Hd; [| lra].
    replace (2 * PI / 0.15 * 0.15) with (2 * PI) in Hd by (field; lra).
    exact Hd. }
  apply (cos_one_needs_full_turn b Hb).
  replace b with ((a + b) - a) by ring.
  rewrite cos_minus, Hs', Hc'. lra.
Qed.

Lemma targetStateValue_range (st : TreeState) : 0 <= targetStateValue st <= 1.
Proof. destruct st; unfold targetStateValue; simpl; lra. Qed.

Lemma blendStep_range (st : TreeState) (delta u : R) :
  0 <= delta <= 0.5 -> 0 <= u <= 1 -> 0 <= blendStep st delta u <= 1.
Proof.
  intros Hd Hu. unfold blendStep. cbv zeta.
  apply lerp_between; [lra | exact Hu | apply targetStateValue_range].
Qed.

(** X14.  The blend uniform stays a blend.  Over any sequence of render
    ticks with frame times of at most half a second, the application state
    changing at will between them, a mounted material whose [uState]
    starts in [[0, 1]] (the shader starts it at 0) still has its [uState]
    in [[0, 1]]; after at least one tick its [uPixelRatio] is at most 2;
    an empty material ref stays empty. *)
Theorem blend_uniform_stays_in_unit_interval
    (frames : list (TreeState * R * R * R)) (m : Material) :
  Forall (fun '(_, _, _, delta) => 0 <= delta <= 0.5) frames ->
  0 <= uState m <= 1 ->
  renderFrames frames None = None /\
  exists m' : Material,
    renderFrames frames (Some m) = Some m' /\
    0 <= uState m' <= 1 /\
    (frames <> [] -> uPixelRatio m' <= 2).
Proof.
  intros Hall Hm. split.
  { unfold renderFrames. clear Hall.
    induction frames as [| [[[st e] dpr] d] fs IH]; [reflexivity | exact IH]. }
  revert m Hm. unfold renderFrames.
  induction Hall as [| [[[st e] dpr] d] fs Hd Hfs IH]; intros m Hm.
  - exists m. repeat split; try lra. intros H. now destruct H.
  - cbn [fold_left magicTreeFrame].
    set (m1 := mkMaterial e (Rmin dpr 2) (blendStep st d (uState m))).
    assert (H1 : 0 <= uState m1 <= 1) by (apply blendStep_range; assumption).
    destruct (IH m1 H1) as (m' & Hrun & Hu & Hp).
    exists m'. split; [exact Hrun |]. split; [exact Hu |].
    intros _. destruct fs as [| f fs'].
    + simpl in Hrun. injection Hrun as <-. simpl. apply Rmin_r.
    + apply Hp. discriminate.
Qed.

Lemma blend_uniform_stays_in_unit_interval_witness :
  exists m' : Material,
    renderFrames [(CHAOS, 0, 1, 0.016); (FORMED, 0.016, 3, 0.5)]
                 (Some (mkMaterial 0 1 0)) = Some m' /\
    0 <= uState m' <= 1 /\
    ([(CHAOS, 0, 1, 0.016); (FORMED, 0.016, 3, 0.5)] <> [] -> uPixelRatio m' <= 2).
Proof.
  apply (blend_uniform_stays_in_unit_interval
           [(CHAOS, 0, 1, 0.016); (FORMED, 0.016, 3, 0.5)] (mkMaterial 0 1 0)).
  - constructor; [lra |]. constructor; [lra | constructor].
  - simpl. lra.
Defined.

(** X15.  The star bobs within 0.2 of its resting height 8: its [y] is
    always between 7.8 and 8.2; it is 8 at elapsed time 0 (the position
    the billboard is given), reaches the upper end 8.2 at time [PI / 3] and
    the lower end 7.8 at time [PI], and repeats every [2 * PI / 1.5]
    seconds. *)
Theorem star_bobs_around_eight :
  (forall t : R, 7.8 <= starY t <= 8.2) /\
  starY 0 = 8 /\
  starY (PI / 3) = 8.2 /\
  starY PI = 7.8 /\
  0 < PI / 3 < PI /\
  (forall t : R, starY (t + 2 * PI / 1.5) = starY t).
Proof.
  split.
  { intros t. unfold starY. pose proof (SIN_bound (t * 1.5)). lra. }
  unfold starY. split; [| split; [| split; [| split]]].
  - replace (0 * 1.5) with 0 by lra. rewrite sin_0. lra.
  - replace (PI / 3 * 1.5) with (PI / 2) by lra.
    rewrite sin_PI2. lra.
  - replace (PI * 1.5) with (3 * (PI / 2)) by lra.
    rewrite sin_3PI2. lra.
  - pose proof PI_RGT_0. lra.
  - intros t.
    replace ((t + 2 * PI / 1.5) * 1.5) with (t * 1.5 + 2 * PI) by lra.
    rewrite sin_plus, sin_2PI, cos_2PI. lra.
Qed.

(** * Further properties of the particle generator *)

Section GeneratorTreeFacts.

Variable random : nat -> R.
Variables (count : nat) (treeHeight treeRadius : R).

(** The tree half of the loop invariant after [n] iterations. *)
Lemma loop_invariant_tree (n : nat) :
  (n <= count)%nat ->
  let st := loop random count treeHeight treeRadius n in
  drawn st = (n * 7)%nat /\
  length (positionsTree (data st)) = (count * 3)%nat /\
  (forall j : nat, (j < n)%nat ->
     pointAt (positionsTree (data st)) j
     = Some (treePoint random count treeHeight treeRadius j)).
Proof.
  induction n as [| n IH]; intros Hn; cbv zeta.
  - unfold loop, allocate; simpl.
    rewrite !length_replicate. repeat split; try reflexivity; intros j Hj; lia.
  - destruct IH as (Hd & Ht & Hp); [lia |].
    rewrite loop_S.
    set (st := loop random count treeHeight treeRadius n) in *.
    unfold loopBody; cbn [data drawn positionsTree positionsSphere randoms].
    rewrite !length_insert.
    split; [lia |]. split; [exact Ht |].
    intros j Hj. destruct (Nat.eq_dec j n) as [-> | Hne].
    + rewrite pointAt_insert_same by lia.
      unfold treePoint. rewrite Hd. reflexivity.
    + rewrite pointAt_insert_other by lia. apply Hp. lia.
Qed.

End GeneratorTreeFacts.

Lemma pointAt_out_of_range (a : list R) (i : nat) :
  (length a <= i * 3)%nat -> pointAt a i = None.
Proof.
  intros H. unfold pointAt.
  now rewrite (lookup_ge_None_2 a (i * 3)) by lia.
Qed.

Lemma yPct_range (i count : nat) :
  (i < count)%nat -> 0 <= INR i / INR count < 1.
Proof.
  intros Hi.
  assert (Hc : 0 < INR count) by (apply lt_0_INR; lia).
  assert (Hlt : INR i < INR count) by now apply lt_INR.
  pose proof (pos_INR i) as H0.
  split.
  - apply Rmult_le_pos; [exact H0 |]. now apply Rlt_le, Rinv_0_lt_compat.
  - apply (Rmult_lt_reg_r (INR count)); [exact Hc |].
    unfold Rdiv. rewrite Rmult_assoc, Rinv_l by lra. lra.
Qed.

(** Any product [(rho * R + s * (0.8 * rho)) * c] with [s], [c] in
    [[-1, 1]] is within [rho * (R + 0.8)] of 0. *)
Lemma cone_bound (rho radius s c : R) :
  0 <= rho -> 0 <= radius -> -1 <= s <= 1 -> -1 <= c <= 1 ->
  - (rho * (radius + 0.8)) <= (rho * radius + s * (0.8 * rho)) * c
  <= rho * (radius + 0.8).
Proof.
  intros Hrho Hr Hs Hc.
  set (B := rho * (radius + 0.8)).
  set (rF := rho * radius + s * (0.8 * rho)).
  assert (HB : 0 <= B) by (unfold B; nra).
  assert (H1 : rF <= B) by (unfold rF, B; nra).
  assert (H2 : - B <= rF) by (unfold rF, B; nra).
  destruct (Rle_dec 0 rF); nra.
Qed.

(** X16.  The tree fits in a cone.  For a non-negative tree height and
    radius and draws in [[0, 1)], every tree particle [i], read back from
    the array, has its height within [treeHeight / 2 + 0.05] of 0 and its
    two horizontal coordinates within
    [(1 - i / count) * (treeRadius + 0.8) + 0.05] of the axis, a bound that
    shrinks to 0.05 towards the top.  With the default height 15 every
    particle is below 7.55, hence below the bobbing star. *)
Theorem tree_inside_cone
    (random : nat -> R) (count : nat) (treeHeight treeRadius : R) (i : nat) :
  (forall k : nat, 0 <= random k < 1) ->
  0 <= treeHeight -> 0 <= treeRadius -> (i < count)%nat ->
  let d := generateTreeData random count treeHeight treeRadius in
  let reach := (1 - INR i / INR count) * (treeRadius + 0.8) + 0.05 in
  exists p : Vec3.t,
    pointAt (positionsTree d) i = Some p /\
    p = treePoint random count treeHeight treeRadius i /\
    - (treeHeight / 2 + 0.05) <= Vec3.y p < treeHeight / 2 + 0.05 /\
    - reach <= Vec3.x p <= reach /\
    - reach <= Vec3.z p <= reach /\
    reach <= treeRadius + 0.85 /\
    (treeHeight = 15 -> forall t : R, Vec3.y p < starY t).
Proof.
  intros Hrand Hh Hr Hi d reach.
  destruct (loop_invariant_tree random count treeHeight treeRadius count
              (le_n count)) as (_ & _ & Hp).
  exists (treePoint random count treeHeight treeRadius i).
  split; [now apply Hp |]. split; [reflexivity |].
  pose proof (yPct_range i count Hi) as Hy.
  pose proof (Hrand (i * 7 + 4)%nat) as H4.
  pose proof (Hrand (i * 7 + 5)%nat) as H5.
  pose proof (Hrand (i * 7 + 6)%nat) as H6.
  subst reach. unfold treePoint; cbn [Vec3.x Vec3.y Vec3.z].
  set (yPct := INR i / INR count) in *.
  set (curl := yPct * PI * 2 * (8.0 + yPct * 4.0) + INR (i mod 12) * 135.5).
  set (theta := yPct * PI * 2 * 3.0 + INR (i mod 12) / INR 12 * PI * 2
                + cos curl * (0.4 * (1.0 - yPct))).
  assert (Hrho : 0 <= 1.0 - yPct) by lra.
  pose proof (cone_bound (1.0 - yPct) treeRadius (sin curl) (cos theta)
                Hrho Hr (SIN_bound curl) (COS_bound theta)) as Hx.
  pose proof (cone_bound (1.0 - yPct) treeRadius (sin curl) (sin theta)
                Hrho Hr (SIN_bound curl) (SIN_bound theta)) as Hz.
  assert (Hyb : - (treeHeight / 2 + 0.05)
                <= (yPct - 0.5) * treeHeight
                   + (random (i * 7 + 5)%nat - 0.5) * 0.1
                < treeHeight / 2 + 0.05) by nra.
  split; [exact Hyb |]. split; [lra |]. split; [lra |]. split; [nra |].
  intros -> t. unfold starY. pose proof (SIN_bound (t * 1.5)). lra.
Qed.

Lemma tree_inside_cone_witness :
  exists p : Vec3.t,
    pointAt (positionsTree (generateTreeData (fun _ => 0.5) 4 15 6)) 3 = Some p /\
    p = treePoint (fun _ => 0.5) 4 15 6 3 /\
    - (15 / 2 + 0.05) <= Vec3.y p < 15 / 2 + 0.05 /\
    - ((1 - INR 3 / INR 4) * (6 + 0.8) + 0.05) <= Vec3.x p
      <= (1 - INR 3 / INR 4) * (6 + 0.8) + 0.05 /\
    - ((1 - INR 3 / INR 4) * (6 + 0.8) + 0.05) <= Vec3.z p
      <= (1 - INR 3 / INR 4) * (6 + 0.8) + 0.05 /\
    (1 - INR 3 / INR 4) * (6 + 0.8) + 0.05 <= 6 + 0.85 /\
    (15 = 15 -> forall t : R, Vec3.y p < starY t).
Proof.
  apply (tree_inside_cone (fun _ => 0.5) 4 15 6 3); try lra; try lia.
  intros k. lra.
Defined.

(** X17.  The sphere points are spread evenly in height.  For draws in
    [[0, 1)], sphere particle [i], read back from the array, has the
    height [r * (2 * v - 1)], linear in its draw [v], where
    [r = 8 + 2 * u] is its radius; it lies on the circle of radius
    [r * sqrt (1 - (2 * v - 1)^2)] around the vertical axis, at the
    angle [2 * PI * a] of its draw [a]. *)
Theorem sphere_height_linear_in_draw
    (random : nat -> R) (count : nat) (treeHeight treeRadius : R) (i : nat) :
  (forall k : nat, 0 <= random k < 1) ->
  (i < count)%nat ->
  let d := generateTreeData random count treeHeight treeRadius in
  let a := random (i * 7 + 1)%nat in
  let v := random (i * 7 + 2)%nat in
  let r := 8 + random (i * 7 + 3)%nat * 2 in
  let rho := r * sqrt (1 - (2 * v - 1) * (2 * v - 1)) in
  exists p : Vec3.t,
    pointAt (positionsSphere d) i = Some p /\
    Vec3.z p = r * (2 * v - 1) /\
    Vec3.x p = rho * cos (a * PI * 2) /\
    Vec3.y p = rho * sin (a * PI * 2) /\
    Vec3.x p * Vec3.x p + Vec3.y p * Vec3.y p = 4 * (r * r) * (v * (1 - v)) /\
    - r <= Vec3.z p < r.
Proof.
  intros Hrand Hi d a v r rho.
  destruct (loop_invariant random count treeHeight treeRadius count (le_n count))
    as (_ & _ & _ & _ & Hp & _).
  exists (spherePoint random i). split; [now apply Hp |].
  pose proof (Hrand (i * 7 + 2)%nat) as Hv. fold v in Hv.
  pose proof (Hrand (i * 7 + 3)%nat) as Hu.
  assert (Hb : -1 <= 2 * v - 1 <= 1) by lra.
  unfold spherePoint; cbn [Vec3.x Vec3.y Vec3.z]. fold a v r.
  rewrite (cos_acos _ Hb), (sin_acos _ Hb). unfold Rsqr. fold rho.
  assert (Hs : 0 <= 1 - (2 * v - 1) * (2 * v - 1)) by nra.
  assert (Hrho : rho * rho = 4 * (r * r) * (v * (1 - v))).
  { unfold rho.
    replace (r * sqrt (1 - (2 * v - 1) * (2 * v - 1))
             * (r * sqrt (1 - (2 * v - 1) * (2 * v - 1))))
      with (r * r * (sqrt (1 - (2 * v - 1) * (2 * v - 1))
                     * sqrt (1 - (2 * v - 1) * (2 * v - 1)))) by ring.
    rewrite sqrt_sqrt by exact Hs. ring. }
  split; [reflexivity |]. split; [reflexivity |]. split; [reflexivity |].
  split.
  - pose proof (sin2_cos2 (a * PI * 2)) as H. unfold Rsqr in H.
    replace (rho * cos (a * PI * 2) * (rho * cos (a * PI * 2))
             + rho * sin (a * PI * 2) * (rho * sin (a * PI * 2)))
      with (rho * rho * (sin (a * PI * 2) * sin (a * PI * 2)
                         + cos (a * PI * 2) * cos (a * PI * 2))) by ring.
    rewrite H, Rmult_1_r. exact Hrho.
  - subst r. nra.
Qed.

Lemma sphere_height_linear_in_draw_witness :
  exists p : Vec3.t,
    pointAt (positionsSphere (generateTreeData (fun _ => 0.5) 2 15 6)) 1 = Some p /\
    Vec3.z p = (8 + 0.5 * 2) * (2 * 0.5 - 1).
Proof.
  assert (Hrand : forall k : nat, 0 <= (fun _ : nat => 0.5) k < 1)
    by (intros k; lra).
  assert (Hi : (1 < 2)%nat) by lia.
  destruct (sphere_height_linear_in_draw (fun _ => 0.5) 2 15 6 1 Hrand Hi)
    as (p & Hp & Hz & _).
  exists p. now split.
Defined.

Lemma loop_draws_agree
    (random random' : nat -> R) (count : nat) (treeHeight treeRadius : R)
    (n : nat) :
  (n <= count)%nat ->
  (forall k : nat, (k < n * 7)%nat -> random k = random' k) ->
  loop random count treeHeight treeRadius n
  = loop random' count treeHeight treeRadius n.
Proof.
  induction n as [| n IH]; intros Hn Hagree; [reflexivity |].
  rewrite !loop_S. rewrite <- IH by (try lia; intros k Hk; apply Hagree; lia).
  destruct (loop_invariant random count treeHeight treeRadius n) as (Hd & _);
    [lia |].
  cbv zeta in Hd. unfold loopBody. rewrite Hd.
  rewrite <- !Hagree by lia. reflexivity.
Qed.

(** X18.  The generator uses exactly seven draws per particle and nothing
    else of the random source: [randoms] holds the first draw of each
    iteration, a value in [[0, 1)]; two sources that agree on the first
    [7 * count] draws give the same three arrays; reading any array at a
    particle index from [count] on gives nothing, and with [count = 0] all
    three arrays are empty. *)
Theorem generator_uses_seven_draws_per_particle
    (random : nat -> R) (count : nat) (treeHeight treeRadius : R) :
  (forall k : nat, 0 <= random k < 1) ->
  let d := generateTreeData random count treeHeight treeRadius in
  drawn (loop random count treeHeight treeRadius count) = (count * 7)%nat /\
  (forall i : nat, (i < count)%nat ->
     randoms d !! i = Some (random (i * 7)%nat) /\
     0 <= random (i * 7)%nat < 1) /\
  (forall random' : nat -> R,
     (forall k : nat, (k < count * 7)%nat -> random k = random' k) ->
     generateTreeData random' count treeHeight treeRadius = d) /\
  (forall i : nat, (count <= i)%nat ->
     randoms d !! i = None /\
     pointAt (positionsTree d) i = None /\
     pointAt (positionsSphere d) i = None) /\
  generateTreeData random 0 treeHeight treeRadius = mkTreeData [] [] [].
Proof.
  intros Hrand d.
  destruct (loop_invariant random count treeHeight treeRadius count (le_n count))
    as (Hd & Ht & Hs & Hr & _ & Hq).
  cbv zeta in Hd, Ht, Hs, Hr, Hq.
  split; [exact Hd |]. split.
  { intros i Hi. split; [now apply Hq | apply Hrand]. }
  split.
  { intros random' Hagree. subst d. unfold generateTreeData.
    now rewrite (loop_draws_agree random random' count treeHeight treeRadius
                   count (le_n count) Hagree). }
  split; [| reflexivity].
  intros i Hi. subst d. unfold generateTreeData.
  split; [apply lookup_ge_None_2; lia |].
  split; apply pointAt_out_of_range; lia.
Qed.

Lemma generator_uses_seven_draws_per_particle_witness :
  drawn (loop (fun _ => 0.25) 3 15 6 3) = (3 * 7)%nat.
Proof.
  apply (generator_uses_seven_draws_per_particle (fun _ => 0.25) 3 15 6).
  intros k. lra.
Defined.

(** * Properties of the tree shaders *)

Lemma cubicBezier_diff (s t : R) :
  TreeShader.cubicBezier t - TreeShader.cubicBezier s
  = (t - s) * (3 * (t + s) - 2 * (t * t + t * s + s * s)).
Proof. unfold TreeShader.cubicBezier. lra || (replace 3.0 with 3 by lra; replace 2.0 with 2 by lra; ring). Qed.

(** X19.  The easing of the blend.  [cubicBezier] maps [[0, 1]] into
    [[0, 1]], fixes 0, 1/2 and 1, is strictly increasing on [[0, 1]] and
    symmetric about the middle ([f (1 - t) = 1 - f t]).  It does not clamp:
    at the overshot blend value 2 it is -4. *)
Theorem cubicBezier_eases_unit_interval :
  (forall t : R, 0 <= t <= 1 ->
     0 <= TreeShader.cubicBezier t <= 1) /\
  TreeShader.cubicBezier 0 = 0 /\
  TreeShader.cubicBezier 0.5 = 0.5 /\
  TreeShader.cubicBezier 1 = 1 /\
  (forall s t : R, 0 <= s -> s < t -> t <= 1 ->
     TreeShader.cubicBezier s < TreeShader.cubicBezier t) /\
  (forall t : R,
     TreeShader.cubicBezier (1 - t) = 1 - TreeShader.cubicBezier t) /\
  TreeShader.cubicBezier 2 = -4.
Proof.
  assert (Hmono : forall s t : R, 0 <= s -> s < t -> t <= 1 ->
            TreeShader.cubicBezier s < TreeShader.cubicBezier t).
  { intros s t Hs Hst Ht.
    pose proof (cubicBezier_diff s t) as Hd.
    assert (Hpos : 0 < 3 * (t + s) - 2 * (t * t + t * s + s * s)) by nra.
    assert (0 < (t - s) * (3 * (t + s) - 2 * (t * t + t * s + s * s)))
      by (apply Rmult_lt_0_compat; lra).
    lra. }
  assert (H0 : TreeShader.cubicBezier 0 = 0)
    by (unfold TreeShader.cubicBezier; lra).
  assert (H1 : TreeShader.cubicBezier 1 = 1)
    by (unfold TreeShader.cubicBezier; lra).
  split.
  { intros t Ht.
    destruct (Req_dec_T t 0) as [-> | Hn0]; [lra |].
    destruct (Req_dec_T t 1) as [-> | Hn1]; [lra |].
    pose proof (Hmono 0 t) as Ha. pose proof (Hmono t 1) as Hb. lra. }
  split; [exact H0 |].
  split; [unfold TreeShader.cubicBezier; lra |].
  split; [exact H1 |].
  split; [exact Hmono |].
  split; [| unfold TreeShader.cubicBezier; lra].
  intros t. unfold TreeShader.cubicBezier.
  replace 3.0 with 3 by lra. replace 2.0 with 2 by lra. ring.
Qed.

Lemma cubicBezier_eases_unit_interval_witness :
  TreeShader.cubicBezier 0.25 < TreeShader.cubicBezier 0.75 /\
  0 <= TreeShader.cubicBezier 0.25 <= 1.
Proof.
  destruct cubicBezier_eases_unit_interval as (Hr & _ & _ & _ & Hm & _).
  split; [apply Hm; lra | apply Hr; lra].
Defined.

Lemma cubicBezier_range (t : R) :
  0 <= t <= 1 -> 0 <= TreeShader.cubicBezier t <= 1.
Proof.
  intros Ht. unfold TreeShader.cubicBezier.
  assert (H0 : 0 <= t * t * (3 - 2 * t)).
  { apply Rmult_le_pos; [apply Rle_0_sqr | lra]. }
  assert (H1 : 0 <= (1 - t) * (1 - t) * (1 + 2 * t)).
  { apply Rmult_le_pos; [apply Rle_0_sqr | lra]. }
  replace (t * t * (3.0 - 2.0 * t)) with (t * t * (3 - 2 * t)) by lra.
  split; [exact H0 |].
  replace (t * t * (3 - 2 * t)) with (1 - (1 - t) * (1 - t) * (1 + 2 * t)) by ring.
  lra.
Qed.

Lemma mix_between (x y a : R) :
  0 <= a <= 1 -> Rmin x y <= TreeShader.mix x y a <= Rmax x y.
Proof.
  intros Ha. unfold TreeShader.mix, Rmin, Rmax.
  destruct (Rle_dec x y); nra.
Qed.

(** X20.  What the vertex shader shows.  The drawn position is the
    blend of the tree and sphere positions at the eased [uState], turned
    about the vertical axis by the angle [0.1 * uTime]:
    [x' = cos * x + sin * z], [y' = y], [z' = - sin * x + cos * z], so a
    blend at radius [rho] and azimuth [alpha] in the horizontal plane is
    drawn at the same radius and azimuth [alpha - 0.1 * uTime], and after
    [uTime = 5 * PI] (a quarter turn) at [(z, y, - x)].  The turn keeps the
    height, the distance to the axis and so the distance to the origin.
    At [uState = 0] the particle is at its (turned) tree position and at
    [uState = 1] at its sphere position; for [uState] in [[0, 1]] every
    coordinate of the blend lies between the two. *)
Theorem vertex_blend_and_turn :
  forall (uTime uState : R) (tree sphere : Vec3.t),
    let pos := TreeShader.mix3 tree sphere (TreeShader.cubicBezier uState) in
    let shown := TreeShader.transformed uTime uState tree sphere in
    Vec3.y shown = Vec3.y pos /\
    Vec3.x shown * Vec3.x shown + Vec3.z shown * Vec3.z shown
    = Vec3.x pos * Vec3.x pos + Vec3.z pos * Vec3.z pos /\
    norm shown = norm pos /\
    Vec3.x shown
    = cos (0.1 * uTime) * Vec3.x pos + sin (0.1 * uTime) * Vec3.z pos /\
    Vec3.z shown
    = - sin (0.1 * uTime) * Vec3.x pos + cos (0.1 * uTime) * Vec3.z pos /\
    (forall rho alpha : R,
        Vec3.x pos = rho * cos alpha -> Vec3.z pos = rho * sin alpha ->
        Vec3.x shown = rho * cos (alpha - 0.1 * uTime) /\
        Vec3.z shown = rho * sin (alpha - 0.1 * uTime)) /\
    TreeShader.transformed (5 * PI) uState tree sphere
    = Vec3.mk (Vec3.z pos) (Vec3.y pos) (- Vec3.x pos) /\
    (uState = 0 -> pos = tree /\ norm shown = norm tree) /\
    (uState = 1 -> pos = sphere /\ norm shown = norm sphere) /\
    (uTime = 0 -> shown = pos) /\
    (0 <= uState <= 1 ->
     Rmin (Vec3.x tree) (Vec3.x sphere) <= Vec3.x pos
       <= Rmax (Vec3.x tree) (Vec3.x sphere) /\
     Rmin (Vec3.y tree) (Vec3.y sphere) <= Vec3.y pos
       <= Rmax (Vec3.y tree) (Vec3.y sphere) /\
     Rmin (Vec3.z tree) (Vec3.z sphere) <= Vec3.z pos
       <= Rmax (Vec3.z tree) (Vec3.z sphere)).
Proof.
  intros uTime uState tree sphere pos shown.
  assert (Hx : Vec3.x shown
               = cos (0.1 * uTime) * Vec3.x pos + sin (0.1 * uTime) * Vec3.z pos).
  { subst shown. unfold TreeShader.transformed. cbv zeta. fold pos.
    cbn [Vec3.x]. now replace (uTime * 0.1) with (0.1 * uTime) by ring. }
  assert (Hz : Vec3.z shown
               = - sin (0.1 * uTime) * Vec3.x pos
                 + cos (0.1 * uTime) * Vec3.z pos).
  { subst shown. unfold TreeShader.transformed. cbv zeta. fold pos.
    cbn [Vec3.z]. now replace (uTime * 0.1) with (0.1 * uTime) by ring. }
  assert (Hy : Vec3.y shown = Vec3.y pos) by reflexivity.
  assert (Hxz : Vec3.x shown * Vec3.x shown + Vec3.z shown * Vec3.z shown
                = Vec3.x pos * Vec3.x pos + Vec3.z pos * Vec3.z pos).
  { rewrite Hx, Hz.
    pose proof (sin2_cos2 (0.1 * uTime)) as H. unfold Rsqr in H.
    set (c := cos (0.1 * uTime)) in *. set (s := sin (0.1 * uTime)) in *.
    replace ((c * Vec3.x pos + s * Vec3.z pos) * (c * Vec3.x pos + s * Vec3.z pos)
             + (- s * Vec3.x pos + c * Vec3.z pos)
               * (- s * Vec3.x pos + c * Vec3.z pos))
      with ((s * s + c * c)
            * (Vec3.x pos * Vec3.x pos + Vec3.z pos * Vec3.z pos)) by ring.
    rewrite H. ring. }
  assert (Hn : norm shown = norm pos).
  { unfold norm. rewrite Hy. f_equal. lra. }
  split; [exact Hy |]. split; [exact Hxz |]. split; [exact Hn |].
  split; [exact Hx |]. split; [exact Hz |].
  split.
  { intros rho alpha Hpx Hpz. rewrite Hx, Hz, Hpx, Hpz, cos_minus, sin_minus.
    split; ring. }
  split.
  { unfold TreeShader.transformed. cbv zeta. fold pos.
    replace (5 * PI * 0.1) with (PI / 2) by lra.
    rewrite sin_PI2, cos_PI2. f_equal; ring. }
  split.
  { intros ->. assert (E : pos = tree).
    { subst pos. unfold TreeShader.mix3, TreeShader.mix, TreeShader.cubicBezier.
      destruct tree as [tx ty tz]. cbn [Vec3.x Vec3.y Vec3.z]. f_equal; lra. }
    split; [exact E | now rewrite Hn, E]. }
  split.
  { intros ->. assert (E : pos = sphere).
    { subst pos. unfold TreeShader.mix3, TreeShader.mix, TreeShader.cubicBezier.
      destruct sphere as [sx sy sz]. cbn [Vec3.x Vec3.y Vec3.z]. f_equal; lra. }
    split; [exact E | now rewrite Hn, E]. }
  split.
  { intros ->. subst shown. unfold TreeShader.transformed. cbv zeta. fold pos.
    replace (0 * 0.1) with 0 by lra. rewrite sin_0, cos_0.
    destruct pos as [px py pz]. cbn [Vec3.x Vec3.y Vec3.z]. f_equal; lra. }
  intros Hu.
  pose proof (cubicBezier_range uState Hu) as Ht.
  subst pos. unfold TreeShader.mix3. cbn [Vec3.x Vec3.y Vec3.z].
  repeat split; apply mix_between; exact Ht.
Qed.

(** X21.  What the fragment shader paints.  A fragment is discarded
    exactly when it is further than 0.5 from the centre of the point.  A
    painted fragment is opaque, and for a non-negative base colour each of
    its channels lies between 0 and twice the base channel; at the centre
    of the point the colour is the base colour times [1 + sin], the
    twinkle of the particle. *)
Theorem fragment_colour_bounded
    (pointCoord : R * R) (uColor : Vec3.t) (uTime vRandom : R) :
  0 <= Vec3.x uColor -> 0 <= Vec3.y uColor -> 0 <= Vec3.z uColor ->
  let dist :=
    sqrt ((fst pointCoord - 0.5) * (fst pointCoord - 0.5)
          + (snd pointCoord - 0.5) * (snd pointCoord - 0.5)) in
  (TreeShader.fragment pointCoord uColor uTime vRandom = None <-> 0.5 < dist) /\
  (forall (c : Vec3.t) (alpha : R),
      TreeShader.fragment pointCoord uColor uTime vRandom = Some (c, alpha) ->
      alpha = 1 /\
      0 <= Vec3.x c <= 2 * Vec3.x uColor /\
      0 <= Vec3.y c <= 2 * Vec3.y uColor /\
      0 <= Vec3.z c <= 2 * Vec3.z uColor) /\
  TreeShader.fragment (0.5, 0.5) uColor uTime vRandom
  = Some (Vec3.mk
            (Vec3.x uColor * (1 + sin (uTime * 6.0 + vRandom * 100.0)))
            (Vec3.y uColor * (1 + sin (uTime * 6.0 + vRandom * 100.0)))
            (Vec3.z uColor * (1 + sin (uTime * 6.0 + vRandom * 100.0))),
          1).
Proof.
  intros Hx Hy Hz dist.
  split; [| split].
  - unfold TreeShader.fragment. fold dist.
    destruct (Rlt_dec 0.5 dist); split; intros H;
      try reflexivity; try assumption; try discriminate H; contradiction.
  - intros c alpha. unfold TreeShader.fragment. fold dist.
    destruct (Rlt_dec 0.5 dist) as [| Hd]; [discriminate |].
    intros [= <- <-]. cbn [Vec3.x Vec3.y Vec3.z].
    assert (H0 : 0 <= dist) by apply sqrt_pos.
    pose proof (SIN_bound (uTime * 6.0 + vRandom * 100.0)) as Hs.
    set (tw := 0.5 + 0.5 * sin (uTime * 6.0 + vRandom * 100.0)).
    set (st := (1.0 - dist * 2.0) * (1.0 - dist * 2.0)).
    assert (Htw : 0 <= tw <= 1) by (unfold tw; lra).
    assert (Hst : 0 <= st <= 1) by (unfold st; nra).
    assert (Hp : 0 <= st * tw <= 1) by nra.
    split; [lra |].
    repeat split; nra.
  - unfold TreeShader.fragment. cbn [fst snd].
    replace ((0.5 - 0.5) * (0.5 - 0.5) + (0.5 - 0.5) * (0.5 - 0.5)) with 0 by lra.
    rewrite sqrt_0.
    destruct (Rlt_dec 0.5 0); [lra |].
    cbn [Vec3.x Vec3.y Vec3.z].
    replace 1.0 with 1 by lra. replace 2.0 with 2 by lra.
    replace 0.5 with (1 / 2) by lra.
    f_equal. f_equal. f_equal; field.
Qed.

Lemma fragment_colour_bounded_witness :
  TreeShader.fragment (0.5, 0.5) (Vec3.mk 3.0 1.5 0.5) 0 0
  = Some (Vec3.mk (3.0 * (1 + sin (0 * 6.0 + 0 * 100.0)))
                  (1.5 * (1 + sin (0 * 6.0 + 0 * 100.0)))
                  (0.5 * (1 + sin (0 * 6.0 + 0 * 100.0))), 1).
Proof.
  apply (fragment_colour_bounded (0.5, 0.5) (Vec3.mk 3.0 1.5 0.5) 0 0);
    simpl; lra.
Defined.

(** * Properties of the labels *)

Lemma run_uiEvents_state (es : list Event) (w : World) :
  Forall uiEvent es ->
  activeState w = FORMED \/ activeState w = CHAOS ->
  activeState (run es w) = FORMED \/ activeState (run es w) = CHAOS.
Proof.
  intros Hall. revert w.
  induction Hall as [| e es' He Hes IH]; intros w Hw; [exact Hw |].
  unfold run in *. cbn [fold_left]. apply IH.
  destruct e as [results | state]; [| exact He].
  cbn [step].
  destruct (tick_cases results w)
    as [(_ & _ & A & _) | [(_ & _ & _ & A & _) | (_ & _ & _ & A & _)]];
    cbv zeta in A; rewrite A; auto.
Qed.

(** X22.  The status label shows exactly one text: OFFLINE on error,
    BOOTING... while loading, and when ready the text of the current
    gesture, never nothing.  In any session the ready label follows the
    gesture exposed in the shared ref: IGNITING exactly when it is CLOSED,
    DISSOLVING exactly when it is OPEN, SCANNING exactly when it is NONE. *)
Theorem status_label_shows_one_text :
  (forall (status : Status) (g : Gesture),
      statusLabel status g =
        match status, g with
        | ERROR, _ => "OFFLINE"
        | LOADING, _ => "BOOTING..."
        | READY, CLOSED => "IGNITING"
        | READY, OPEN => "DISSOLVING"
        | READY, NONE => "SCANNING"
        end%string /\
      statusLabel status g <> ""%string) /\
  (forall es : list Event,
      let w := run es initialWorld in
      let shown := statusLabel READY (currentGesture w) in
      let stored := HandData.gesture (handDataRef w) in
      (shown = "IGNITING"%string <-> stored = CLOSED) /\
      (shown = "DISSOLVING"%string <-> stored = OPEN) /\
      (shown = "SCANNING"%string <-> stored = NONE)).
Proof.
  split.
  - intros status g. destruct status, g; split; (reflexivity || discriminate).
  - intros es w shown stored.
    destruct (run_sessionInvariant es initialWorld initialWorld_sessionInvariant)
      as (_ & Hg & Hc).
    fold w in Hg, Hc. subst shown stored. rewrite Hg, Hc.
    destruct (lastGestureRef w); repeat split; intros H;
      (reflexivity || discriminate H).
Qed.

(** X23.  The prompt follows presence and state.  One poll of the overlay
    shows step 1 whenever no hand is present, whatever the state; with a
    hand it shows step 2 in FORMED and step 3 in CHAOS, and in FOCUS it
    leaves the prompt as it was.  Polling twice is polling once.  In a
    session of ticks and button clicks the step after a poll is 1, 2 or 3,
    and it is 1 exactly when the hand is absent. *)
Theorem prompt_follows_presence_and_state :
  (forall (hand : HandData.t) (st : TreeState) (p : PromptPhase.t),
      let q := pollPrompt hand st p in
      (HandData.isPresent hand = false -> PromptPhase.step q = 1%nat) /\
      (HandData.isPresent hand = true -> st = FORMED -> PromptPhase.step q = 2%nat) /\
      (HandData.isPresent hand = true -> st = CHAOS -> PromptPhase.step q = 3%nat) /\
      (HandData.isPresent hand = true -> st = FOCUS -> q = p) /\
      pollPrompt hand st q = q) /\
  (forall (es : list Event) (p : PromptPhase.t),
      Forall uiEvent es ->
      let w := run es initialWorld in
      let q := pollPrompt (handDataRef w) (activeState w) p in
      (1 <= PromptPhase.step q <= 3)%nat /\
      (PromptPhase.step q = 1%nat <-> HandData.isPresent (handDataRef w) = false) /\
      (PromptPhase.step q = 2%nat <->
         HandData.isPresent (handDataRef w) = true /\ activeState w = FORMED) /\
      (PromptPhase.step q = 3%nat <->
         HandData.isPresent (handDataRef w) = true /\ activeState w = CHAOS)).
Proof.
  split.
  - intros hand st p q. subst q. unfold pollPrompt.
    destruct (HandData.isPresent hand); simpl.
    + destruct st; simpl.
      * destruct (Gesture_eqb _ _); simpl; repeat split; intros;
          try reflexivity; discriminate.
      * destruct (Gesture_eqb _ _); simpl; repeat split; intros;
          try reflexivity; discriminate.
      * repeat split; intros; try reflexivity; discriminate.
    + repeat split; intros; try reflexivity; discriminate.
  - intros es p Hall w q.
    assert (Hst : activeState w = FORMED \/ activeState w = CHAOS).
    { subst w. apply run_uiEvents_state; [exact Hall | now left]. }
    subst q. unfold pollPrompt.
    destruct (HandData.isPresent (handDataRef w)); simpl;
      [destruct Hst as [-> | ->]; destruct (Gesture_eqb _ _); simpl |];
      (split; [lia |]); repeat split; intros;
      try reflexivity; try discriminate;
      try (repeat match goal with Hc : _ /\ _ |- _ => destruct Hc end;
           discriminate).
Qed.

Lemma prompt_follows_presence_and_state_witness :
  PromptPhase.step
    (pollPrompt (handDataRef (run [Tick noHand; Manual CHAOS] initialWorld))
                (activeState (run [Tick noHand; Manual CHAOS] initialWorld))
                initialPromptPhase) = 1%nat.
Proof.
  assert (Hui : Forall uiEvent [Tick noHand; Manual CHAOS]).
  { constructor; [exact I |]. constructor; [now right | constructor]. }
  destruct prompt_follows_presence_and_state as (_ & H).
  destruct (H _ initialPromptPhase Hui) as (_ & H1 & _).
  apply H1. reflexivity.
Defined.
